(** * quarks-operator: BOSH manifest model and with-ops resolver

    A shallow embedding of [pkg/bosh/manifest/manifest.go] and of
    [pkg/kube/util/withops/resolver.go].  Go strings are [string] (a list
    of bytes), Go slices are lists, Go maps whose order of enumeration the
    code depends on are association lists, the others are [gmap]s.
    Pointers to structs are held by value ([option] when nil is allowed);
    a method that mutates its receiver returns the new receiver. *)

From Stdlib Require Import ZArith String Ascii List Bool Lia.
From stdpp Require Import base option list strings pretty gmap.

Set Warnings "-register-all".

Local Open Scope string_scope.

(** ** Results of fallible calls *)

(** A Go call returning [(T, error)].  [Panic] is a run-time fault (a nil
    dereference), which is not a returned error. *)
Inductive result (A : Type) : Type :=
| Ok (a : A)
| Err (msg : string)
| Panic.
Arguments Ok {A} a.
Arguments Err {A} msg.
Arguments Panic {A}.

Definition rbind {A B} (r : result A) (k : A -> result B) : result B :=
  match r with
  | Ok a => k a
  | Err e => Err e
  | Panic => Panic
  end.

(** [errors.Wrapf(err, msg)]: the text changes, the failure stays.  Where
    Go formats a whole document into the message with [%#v], the message
    here goes without it. *)
Definition wrapf {A} (r : result A) (msg : string) : result A :=
  match r with
  | Ok a => Ok a
  | Err e => Err (msg ++ ": " ++ e)
  | Panic => Panic
  end.

#[global] Instance result_bind : MBind result := fun A B k r => rbind r k.
#[global] Instance result_ret : MRet result := fun A a => Ok a.

(** ** crypto/sha1 and encoding/hex *)

Module sha1.
Local Open Scope Z_scope.

Definition mask32 : Z := 4294967295.
Definition add32 (x y : Z) : Z := Z.land (x + y) mask32.
Definition rotl (n x : Z) : Z :=
  Z.land (Z.lor (Z.shiftl x n) (Z.shiftr x (32 - n))) mask32.
Definition not32 (x : Z) : Z := Z.lxor x mask32.

Definition bytes_of (s : string) : list Z :=
  List.map (fun c => Z.of_nat (nat_of_ascii c)) (list_ascii_of_string s).

(** big-endian encoding of [x] on [n] bytes *)
Fixpoint be_bytes (n : nat) (x : Z) : list Z :=
  match n with
  | O => []
  | S n' => Z.land (Z.shiftr x (8 * Z.of_nat n')) 255 :: be_bytes n' x
  end.

(** the message, the bit 1, zeros up to 56 mod 64, the bit length *)
Definition pad (msg : list Z) : list Z :=
  let l := Z.of_nat (length msg) in
  let k := Z.to_nat ((55 - l) mod 64) in
  msg ++ 128 :: repeat 0 k ++ be_bytes 8 (8 * l).

Fixpoint words_of (bs : list Z) (n : nat) : list Z :=
  match n with
  | O => []
  | S n' =>
      match bs with
      | a :: b :: c :: d :: rest =>
          (Z.shiftl a 24 + Z.shiftl b 16 + Z.shiftl c 8 + d) :: words_of rest n'
      | _ => []
      end
  end.

(** the message schedule, newest word first *)
Fixpoint schedule (n : nat) (w : list Z) : list Z :=
  match n with
  | O => w
  | S n' =>
      let x := Z.lxor (Z.lxor (nth 2 w 0) (nth 7 w 0))
                      (Z.lxor (nth 13 w 0) (nth 15 w 0)) in
      schedule n' (rotl 1 x :: w)
  end.

Definition f_k (t : nat) (b c d : Z) : Z * Z :=
  if (t <? 20)%nat then (Z.lor (Z.land b c) (Z.land (not32 b) d), 1518500249)
  else if (t <? 40)%nat then (Z.lxor (Z.lxor b c) d, 1859775393)
  else if (t <? 60)%nat then
    (Z.lor (Z.lor (Z.land b c) (Z.land b d)) (Z.land c d), 2400959708)
  else (Z.lxor (Z.lxor b c) d, 3395469782).

Definition state : Type := Z * Z * Z * Z * Z.

Fixpoint rounds (ws : list Z) (t : nat) (st : state) : state :=
  match ws with
  | [] => st
  | w :: ws' =>
      let '(a, b, c, d, e) := st in
      let '(f, k) := f_k t b c d in
      let tmp := add32 (add32 (add32 (add32 (rotl 5 a) f) e) k) w in
      rounds ws' (S t) (tmp, a, rotl 30 b, c, d)
  end.

Definition block (st : state) (bs : list Z) : state :=
  let ws := rev (schedule 64 (rev (words_of bs 16))) in
  let '(h0, h1, h2, h3, h4) := st in
  let '(a, b, c, d, e) := rounds ws 0 st in
  (add32 h0 a, add32 h1 b, add32 h2 c, add32 h3 d, add32 h4 e).

Fixpoint blocks (n : nat) (bs : list Z) (st : state) : state :=
  match n with
  | O => st
  | S n' => blocks n' (skipn 64 bs) (block st (firstn 64 bs))
  end.

Definition init : state :=
  (1732584193, 4023233417, 2562383102, 271733878, 3285377520).

(** [sha1.Sum], the twenty bytes of the digest *)
Definition Sum (s : string) : list Z :=
  let p := pad (bytes_of s) in
  let '(h0, h1, h2, h3, h4) := blocks (length p / 64) p init in
  be_bytes 4 h0 ++ be_bytes 4 h1 ++ be_bytes 4 h2 ++ be_bytes 4 h3 ++
  be_bytes 4 h4.
End sha1.

Module hex.
Local Open Scope Z_scope.

Definition hexdigit (x : Z) : ascii :=
  ascii_of_nat (Z.to_nat (if x <? 10 then 48 + x else 87 + x)).

(** [hex.EncodeToString] *)
Fixpoint EncodeToString (bs : list Z) : string :=
  match bs with
  | [] => EmptyString
  | b :: bs' =>
      String (hexdigit (Z.shiftr b 4))
        (String (hexdigit (Z.land b 15)) (EncodeToString bs'))
  end.
End hex.

(** [hex.EncodeToString(sum[:])] of the SHA-1 of [s], as both cases of the
    walk compute it *)
Definition sha1_hex (s : string) : string :=
  hex.EncodeToString (sha1.Sum s).

(** ** The untyped document tree walked by [Marshal] *)

(** Kinds the walk passes over without looking inside. *)
Inductive scalar : Type :=
| SBool (b : bool)
| SInt (z : Z)
| SFloat (repr : string).

(** What [reflect] shows of a decoded YAML document.  [VSlice] is a Go
    slice ([[]interface{}] or a [MapSlice]), [VMapItem] the two-field
    struct [MapItem{Key, Value}], [VMap] a Go map
    ([map[interface{}]interface{}]) whose bindings are listed in the order
    in which [MapKeys] happens to enumerate them.  Keys are strings: the
    document is the YAML form of a JSON object.  The interface wrapper that
    the first lines of the walk strip is left implicit. *)
Inductive node : Type :=
| VNil
| VScalar (x : scalar)
| VString (s : string)
| VSlice (l : list node)
| VMapItem (key : string) (val : node)
| VMap (m : list (string * node)).

(** *** Go maps as association lists *)

Fixpoint alookup {A} (k : string) (m : list (string * A)) : option A :=
  match m with
  | [] => None
  | (k', a) :: m' => if String.eqb k k' then Some a else alookup k m'
  end.

(** [delete(m, k)], and [SetMapIndex(k, reflect.Value{})] *)
Fixpoint adelete {A} (k : string) (m : list (string * A)) : list (string * A) :=
  match m with
  | [] => []
  | (k', a) :: m' =>
      if String.eqb k k' then adelete k m' else (k', a) :: adelete k m'
  end.

(** [m[k] = a]: the binding is replaced where it stands, or added. *)
Fixpoint ainsert {A} (k : string) (a : A) (m : list (string * A))
  : list (string * A) :=
  match m with
  | [] => [(k, a)]
  | (k', a') :: m' =>
      if String.eqb k k' then (k, a) :: m' else (k', a') :: ainsert k a m'
  end.

(** *** Duplicate-value marking *)

Record duplicateYamlValue : Type := {
  Hash : string;
  YamlKeyMarker : string
}.

(** [map[string]duplicateYamlValue], keyed by the hash *)
Definition duplicates : Type := list (string * duplicateYamlValue).

(** [valueField.String() != "" && valueField.IsValid()
     && len(valueField.String()) > 64], the test of the struct case *)
Definition bigEnough (s : string) : bool :=
  negb (String.eqb s "") && (64 <? String.length s)%nat.

(** [valueField.String() != "" && valueField.IsValid()], the test of the
    map case *)
Definition nonEmpty (s : string) : bool := negb (String.eqb s "").

(** [markDuplicateValues].  The walk updates the tree in place, so the
    model returns the tree next to the table.

    In the map case the loop runs over the keys as [MapKeys] listed them
    before the loop, and reads each value from the map as it stands then.
    The bindings written meanwhile are string values, so a value under [k]
    that is not a string is the one [k] had from the start: the recursive
    call is made on that one. *)
Fixpoint markDuplicateValues (value : node) (duplicateValues : duplicates)
  {struct value} : node * duplicates :=
  match value with
  | VSlice l =>
      let '(l', dv') :=
        (fix elems (l : list node) (dv : duplicates)
           : list node * duplicates :=
           match l with
           | [] => ([], dv)
           | x :: xs =>
               let '(x', dv1) := markDuplicateValues x dv in
               let '(xs', dv2) := elems xs dv1 in
               (x' :: xs', dv2)
           end) l duplicateValues in
      (VSlice l', dv')
  | VMapItem key val =>
      match val with
      | VString s =>
          if bigEnough s then
            let sha1 := sha1_hex s in
            match alookup sha1 duplicateValues with
            | Some _ => (VMapItem key (VString ("*" ++ sha1)), duplicateValues)
            | None =>
                (VMapItem (key ++ "=" ++ sha1) (VString s),
                 ainsert sha1 {| Hash := sha1; YamlKeyMarker := key |}
                   duplicateValues)
            end
          else (value, duplicateValues)
      | _ =>
          let '(val', dv') := markDuplicateValues val duplicateValues in
          (VMapItem key val', dv')
      end
  | VMap m =>
      let '(m', dv') :=
        (fix keys (ks cur : list (string * node)) (dv : duplicates)
           : list (string * node) * duplicates :=
           match ks with
           | [] => (cur, dv)
           | (k, v0) :: ks' =>
               match alookup k cur with
               | Some (VString s) =>
                   if nonEmpty s then
                     let sha1 := sha1_hex s in
                     match alookup sha1 dv with
                     | Some _ =>
                         keys ks' (ainsert k (VString ("*" ++ sha1)) cur) dv
                     | None =>
                         keys ks'
                           (ainsert (k ++ "=" ++ sha1) (VString s) (adelete k cur))
                           (ainsert sha1 {| Hash := sha1; YamlKeyMarker := k |} dv)
                     end
                   else keys ks' cur dv
               | Some _ =>
                   let '(v', dv1) := markDuplicateValues v0 dv in
                   keys ks' (ainsert k v' cur) dv1
               | None => keys ks' cur dv
               end
           end) m m duplicateValues in
      (VMap m', dv')
  | _ => (value, duplicateValues)
  end.

(** ** The manifest and its parts *)

(** [map[string]interface{}] *)
Abbreviation anyMap := (list (string * node)).

Module Feature.
Record t : Type := {
  ConvergeVariables : bool;
  RandomizeAzPlacement : option bool;
  UseDNSAddresses : option bool;
  UseTmpfsJobConfig : option bool
}.
End Feature.

(** [ServiceRef] and [Copies], whose element types another repository
    declares, are left out; no code here reads them. *)
Module VariableOptions.
Record t : Type := {
  CommonName : string;
  AlternativeNames : list string;
  IsCA : bool;
  CA : string;
  ExtendedKeyUsage : list string;
  SignerType : string;
  ActivateEKSWorkaroundForSAN : bool
}.
End VariableOptions.

(** The Go struct [Variable]. *)
Module Var.
Record t : Type := {
  Name : string;
  Type_ : string;
  Options : option VariableOptions.t
}.
End Var.

Module Stemcell.
Record t : Type := {
  Alias : string;
  OS : string;
  Version : string;
  Name : string
}.
End Stemcell.

Module ReleaseStemcell.
Record t : Type := {
  OS : string;
  Version : string
}.
End ReleaseStemcell.

Module Release.
Record t : Type := {
  Name : string;
  Version : string;
  URL : string;
  SHA1 : string;
  Stemcell : option ReleaseStemcell.t
}.
End Release.

(** Modelled from the spec: [Quarks], [JobProperties], [Job], [Update] and
    [InstanceGroup] are declared in files of the package that are not at
    hand.  The records hold the fields that the functions below read or
    write; the labels of an instance group stand for
    [Env.AgentEnvBoshConfig.Agent.Settings.Labels], [None] being the nil
    map. *)
Module Quarks.
Record t : Type := {
  IsAddon : bool
}.
End Quarks.

Module JobProperties.
Record t : Type := {
  Properties : anyMap;
  Quarks : Quarks.t
}.
End JobProperties.

Module Job.
Record t : Type := {
  Name : string;
  Release : string;
  Properties : JobProperties.t;
  Consumes : anyMap;
  Provides : anyMap
}.
End Job.

Module Update.
Record t : Type := {
  CanaryWatchTime : string;
  UpdateWatchTime : string;
  Serial : option bool
}.
End Update.

Module InstanceGroup.
Record t : Type := {
  Name : string;
  Stemcell : string;
  Jobs : list Job.t;
  Labels : option (gmap string string);
  Update : option Update.t
}.

Definition withJobs (jobs : list Job.t) (ig : t) : t :=
  {| Name := Name ig; Stemcell := Stemcell ig; Jobs := jobs;
     Labels := Labels ig; Update := Update ig |}.

Definition withLabels (labels : option (gmap string string)) (ig : t) : t :=
  {| Name := Name ig; Stemcell := Stemcell ig; Jobs := Jobs ig;
     Labels := labels; Update := Update ig |}.

Definition withUpdate (u : option Update.t) (ig : t) : t :=
  {| Name := Name ig; Stemcell := Stemcell ig; Jobs := Jobs ig;
     Labels := Labels ig; Update := u |}.
End InstanceGroup.

Module AddOnJob.
Record t : Type := {
  Name : string;
  Release : string;
  Properties : JobProperties.t;
  Consumes : anyMap;
  Provides : anyMap
}.
End AddOnJob.

Module AddOnStemcell.
Record t : Type := { OS : string }.
End AddOnStemcell.

Module AddOnPlacementJob.
Record t : Type := {
  Name : string;
  Release : string
}.
End AddOnPlacementJob.

Module AddOnPlacementRules.
Record t : Type := {
  Stemcell : list AddOnStemcell.t;
  Deployments : list string;
  Jobs : list AddOnPlacementJob.t;
  InstanceGroup : list string;
  Networks : list string;
  Teams : list string;
  Lifecycle : string
}.
End AddOnPlacementRules.

Module AddOn.
Record t : Type := {
  Name : string;
  Jobs : list AddOnJob.t;
  Include : option AddOnPlacementRules.t;
  Exclude : option AddOnPlacementRules.t
}.
End AddOn.

Module Manifest.
Record t : Type := {
  DirectorUUID : string;
  InstanceGroups : list InstanceGroup.t;
  Features : option Feature.t;
  Tags : gmap string string;
  Releases : list Release.t;
  Stemcells : list Stemcell.t;
  AddOns : list AddOn.t;
  Properties : anyMap;
  Variables : list Var.t;
  Update : option Update.t;
  AddOnsApplied : bool
}.

Definition withInstanceGroups (igs : list InstanceGroup.t) (m : t) : t :=
  {| DirectorUUID := DirectorUUID m; InstanceGroups := igs;
     Features := Features m; Tags := Tags m; Releases := Releases m;
     Stemcells := Stemcells m; AddOns := AddOns m;
     Properties := Properties m; Variables := Variables m;
     Update := Update m; AddOnsApplied := AddOnsApplied m |}.

Definition withAddOnsApplied (b : bool) (m : t) : t :=
  {| DirectorUUID := DirectorUUID m; InstanceGroups := InstanceGroups m;
     Features := Features m; Tags := Tags m; Releases := Releases m;
     Stemcells := Stemcells m; AddOns := AddOns m;
     Properties := Properties m; Variables := Variables m;
     Update := Update m; AddOnsApplied := b |}.
End Manifest.

Definition BoshDNSAddOnName : string := "bosh-dns".
Definition BOSHDNSAliasesAddOnName : string := "bosh-dns-aliases".
Definition DesiredManifestKeyName : string := "manifest.yaml".

(** ** Serialization *)

(** The YAML and JSON encoders and decoders are libraries outside the
    repository: [yaml_Marshal] and [yaml_Unmarshal] are those of
    [sigs.k8s.io/yaml] (the latter with [UseNumber]), [goyaml_Unmarshal]
    decodes into a [MapSlice] and [goyaml_Marshal] encodes one. *)
Class Codec : Type := {
  yaml_Marshal : Manifest.t -> result string;
  yaml_Unmarshal : string -> result Manifest.t;
  goyaml_Unmarshal : string -> result node;
  goyaml_Marshal : node -> result string
}.

(** [strings.HasPrefix] *)
Fixpoint HasPrefix (s prefix : string) : bool :=
  match prefix, s with
  | EmptyString, _ => true
  | String p prefix', String c s' => Ascii.eqb p c && HasPrefix s' prefix'
  | String _ _, EmptyString => false
  end.

(** [bytes.ReplaceAll] for a non-empty [old]: the occurrences are taken
    from the left and do not overlap.  [skip] counts the bytes of a
    replaced occurrence that are still to be passed over. *)
Fixpoint replaceFrom (skip : nat) (s old new : string) : string :=
  match s with
  | EmptyString => EmptyString
  | String c s' =>
      match skip with
      | S k => replaceFrom k s' old new
      | O =>
          if HasPrefix s old
          then new ++ replaceFrom (String.length old - 1) s' old new
          else String c (replaceFrom 0 s' old new)
      end
  end.

Definition ReplaceAll (s old new : string) : string := replaceFrom 0 s old new.

Section Serialization.
Context {codec : Codec}.

(** [LoadYAML] *)
Definition LoadYAML (data : string) : result Manifest.t :=
  wrapf (yaml_Unmarshal data)
    ("failed to unmarshal BOSH deployment manifest " ++ data).

(** The two replacements that [Marshal] makes for one entry of the
    table. *)
Definition unquoteAnchor (marshalledManifest : string)
  (v : duplicateYamlValue) : string :=
  let marshalledManifest :=
    ReplaceAll marshalledManifest ("'*" ++ Hash v ++ "'") ("*" ++ Hash v) in
  ReplaceAll marshalledManifest
    (YamlKeyMarker v ++ "=" ++ Hash v ++ ": ")
    (YamlKeyMarker v ++ ": &" ++ Hash v ++ " ").

(** [Marshal].  The last loop ranges over a Go map, in an order that Go
    leaves open; here it is the order in which the entries were made. *)
Definition Marshal (m : Manifest.t) : result string :=
  marshalledManifest ← yaml_Marshal m;
  manifestInterfaceMap ← goyaml_Unmarshal marshalledManifest;
  let '(manifestInterfaceMap, duplicateValues) :=
    markDuplicateValues manifestInterfaceMap [] in
  marshalledManifest ← goyaml_Marshal manifestInterfaceMap;
  Ok (foldl (fun acc kv => unquoteAnchor acc (snd kv))
        marshalledManifest duplicateValues).

(** [SHA1] *)
Definition SHA1 (m : Manifest.t) : result string :=
  manifestBytes ← wrapf (Marshal m) "YAML marshalling manifest failed.";
  Ok (sha1_hex manifestBytes).
End Serialization.

(** ** Variable discovery *)

(** [strings.Contains(name, "/")] *)
Fixpoint containsSlash (name : string) : bool :=
  match name with
  | EmptyString => false
  | String c name' => Ascii.eqb c "/" || containsSlash name'
  end.

(** [SlashedVariable] *)
Definition SlashedVariable (name : string) : bool := containsSlash name.

Definition between (lo hi c : ascii) : bool :=
  (nat_of_ascii lo <=? nat_of_ascii c)%nat && (nat_of_ascii c <=? nat_of_ascii hi)%nat.

(** The class [[-/\.\w\pL]] on bytes.  [\w] is [[0-9A-Za-z_]]; of [\pL]
    only the ASCII letters, which [\w] already holds, are in reach of a
    byte-wise reading: the model is that of ASCII text. *)
Definition nameChar (c : ascii) : bool :=
  Ascii.eqb c "-" || Ascii.eqb c "/" || Ascii.eqb c "." || Ascii.eqb c "_"
  || between "0" "9" c || between "A" "Z" c || between "a" "z" c.

(** the longest prefix of bytes satisfying [p], and the rest *)
Fixpoint span (p : ascii -> bool) (s : string) : string * string :=
  match s with
  | EmptyString => (EmptyString, EmptyString)
  | String c s' =>
      if p c then let '(a, b) := span p s' in (String c a, b)
      else (EmptyString, s)
  end.

(** A match of [\(\((!?[-/\.\w\pL]+)\)\)] at the start of [s]: the
    submatch and the length of the whole match.  Neither "!" nor ")" is in
    the class, so the greedy reading is the only one. *)
Definition varRegexpAt (s : string) : option (string * nat) :=
  match s with
  | String "(" (String "(" r) =>
      let '(bang, r1) :=
        match r with
        | String "!" r' => ("!", r')
        | _ => ("", r)
        end in
      let '(name, r2) := span nameChar r1 in
      match name, r2 with
      | String _ _, String ")" (String ")" _) =>
          Some (bang ++ name, 4 + String.length (bang ++ name))%nat
      | _, _ => None
      end
  | _ => None
  end.

(** [varRegexp.FindAllStringSubmatch(rawManifest, -1)], reduced to the
    first submatch of each match; [skip] counts the bytes of the last
    match that are still to be passed over. *)
Fixpoint findAllFrom (skip : nat) (s : string) : list string :=
  match s with
  | EmptyString => []
  | String _ s' =>
      match skip with
      | S k => findAllFrom k s'
      | O =>
          match varRegexpAt s with
          | Some (name, len) => name :: findAllFrom (len - 1) s'
          | None => findAllFrom 0 s'
          end
      end
  end.

Definition FindAllStringSubmatch (rawManifest : string) : list string :=
  findAllFrom 0 rawManifest.

Definition notDot (c : ascii) : bool := negb (Ascii.eqb c ".").

(** [fieldRegexp.FindString], for [[^\.]+]: the first run of bytes other
    than a dot, or the empty string *)
Fixpoint fieldRegexp_FindString (s : string) : string :=
  match s with
  | EmptyString => EmptyString
  | String c s' =>
      if notDot c then fst (span notDot s) else fieldRegexp_FindString s'
  end.

(** the body of the collecting loop: what is stored for one match *)
Definition variableName (match1 : string) : string :=
  if negb (SlashedVariable match1) then fieldRegexp_FindString match1
  else match1.

Section Discovery.
Context {codec : Codec}.

(** the two loops of [ImplicitVariables] that fill [varMap] *)
Definition collectVariables (rawManifest : string) (variables : list Var.t)
  : gmap string bool :=
  let varMap : gmap string bool :=
    foldl (fun varMap match1 => <[variableName match1 := true]> varMap)
      ∅ (FindAllStringSubmatch rawManifest) in
  foldl (fun varMap v => <[Var.Name v := false]> varMap) varMap variables.

(** [ImplicitVariables].  The names come out of a [range] over a Go map,
    in an order that Go leaves open; here it is that of [map_to_list]. *)
Definition ImplicitVariables (m : Manifest.t) : result (list string) :=
  manifestBytes ← Marshal m;
  let varMap := collectVariables manifestBytes (Manifest.Variables m) in
  Ok (fst <$> filter (fun kv => snd kv = true) (map_to_list varMap)).
End Discovery.

(** ** Loops over slices that may stop with an error *)

Fixpoint foldM {A B} (f : B -> A -> result B) (b : B) (l : list A) : result B :=
  match l with
  | [] => Ok b
  | a :: l' => b' ← f b a; foldM f b' l'
  end.

Fixpoint forM {A B} (f : A -> result B) (l : list A) : result (list B) :=
  match l with
  | [] => Ok []
  | a :: l' => b ← f a; bs ← forM f l'; Ok (b :: bs)
  end.

(** ** Release labels *)

(** the loop that finds the stemcell of an instance group: it has no
    [break], the last stemcell with the alias stays *)
Definition stemcellOf (stemcells : list Stemcell.t) (alias : string)
  : option Stemcell.t :=
  foldl (fun found s => if String.eqb (Stemcell.Alias s) alias then Some s else found)
    None stemcells.

Definition releaseLabel (igName : string) (stemcell : option Stemcell.t)
  (job : Job.t) (labels : option (gmap string string)) (release : Release.t)
  : result (option (gmap string string)) :=
  if String.eqb (Release.Name release) (Job.Release job) then
    stemcellVersion ←
      match Release.Stemcell release with
      | Some rs => Ok (ReleaseStemcell.OS rs ++ "-" ++ ReleaseStemcell.Version rs)
      | None =>
          match stemcell with
          | None =>
              Err ("stemcell could not be resolved for instance group " ++ igName)
          | Some sc => Ok (Stemcell.OS sc ++ "-" ++ Stemcell.Version sc)
          end
      end;
    let labelName := "app.kubernetes.io/version-image-" ++ Job.Release job in
    let labelValue := stemcellVersion ++ "-" ++ Release.Version release in
    Ok (Some (<[labelName := labelValue]> (default ∅ labels)))
  else Ok labels.

(** [AddReleasesLabels]; on an error the callers drop the manifest *)
Definition AddReleasesLabels (m : Manifest.t) : result Manifest.t :=
  igs ← forM (fun instanceGroup =>
      let stemcell :=
        stemcellOf (Manifest.Stemcells m) (InstanceGroup.Stemcell instanceGroup) in
      labels ← foldM (fun labels job =>
          foldM (releaseLabel (InstanceGroup.Name instanceGroup) stemcell job)
            labels (Manifest.Releases m))
        (InstanceGroup.Labels instanceGroup) (InstanceGroup.Jobs instanceGroup);
      Ok (InstanceGroup.withLabels labels instanceGroup))
    (Manifest.InstanceGroups m);
  Ok (Manifest.withInstanceGroups igs m).

(** ** Addons *)

(** Modelled from the spec: [addOnPlacementMatch] is a method of the
    manifest written in a file that is not at hand.  It is given the
    manifest as it stands, the kind of match ("inclusion" or "exclusion"),
    the instance group and the rules, and answers whether the rules match,
    or fails. *)
Class AddOnPlacement : Type :=
  addOnPlacementMatch :
    Manifest.t -> string -> InstanceGroup.t -> option AddOnPlacementRules.t ->
    result bool.

(** the job built from an addon job; [Quarks] is a struct held by value,
    so the flag is set on the copy *)
Definition addedJob (addonJob : AddOnJob.t) : Job.t :=
  {| Job.Name := AddOnJob.Name addonJob;
     Job.Release := AddOnJob.Release addonJob;
     Job.Properties :=
       {| JobProperties.Properties :=
            JobProperties.Properties (AddOnJob.Properties addonJob);
          JobProperties.Quarks := {| Quarks.IsAddon := true |} |};
     Job.Consumes := AddOnJob.Consumes addonJob;
     Job.Provides := AddOnJob.Provides addonJob |}.

Section Addons.
Context {placement : AddOnPlacement}.

(** the body of the loop over the instance groups, for the group at
    index [i]; the groups are held by pointer, the update is in place *)
Definition applyAddonToGroup (addon : AddOn.t) (i : nat) (m : Manifest.t)
  : Manifest.t * result () :=
  match Manifest.InstanceGroups m !! i with
  | None => (m, Ok ())
  | Some ig =>
      match addOnPlacementMatch m "inclusion" ig (AddOn.Include addon) with
      | Ok include =>
          match addOnPlacementMatch m "exclusion" ig (AddOn.Exclude addon) with
          | Ok exclude =>
              if exclude || negb include then (m, Ok ())
              else
                let ig' :=
                  InstanceGroup.withJobs
                    (InstanceGroup.Jobs ig ++ (addedJob <$> AddOn.Jobs addon))%list
                    ig in
                (Manifest.withInstanceGroups
                   (<[i := ig']> (Manifest.InstanceGroups m)) m,
                 Ok ())
          | Err e =>
              (m, Err ("failed to process exclude placement matches: " ++ e))
          | Panic => (m, Panic)
          end
      | Err e => (m, Err ("failed to process include placement matches: " ++ e))
      | Panic => (m, Panic)
      end
  end.

Fixpoint applyAddonToGroups (addon : AddOn.t) (indices : list nat)
  (m : Manifest.t) : Manifest.t * result () :=
  match indices with
  | [] => (m, Ok ())
  | i :: rest =>
      match applyAddonToGroup addon i m with
      | (m', Ok _) => applyAddonToGroups addon rest m'
      | failed => failed
      end
  end.

(** the body of the loop over the addons *)
Definition applyAddon (addon : AddOn.t) (m : Manifest.t)
  : Manifest.t * result () :=
  if String.eqb (AddOn.Name addon) BoshDNSAddOnName then (m, Ok ())
  else
    applyAddonToGroups addon
      (seq 0 (length (Manifest.InstanceGroups m))) m.

Fixpoint applyAddons (addons : list AddOn.t) (m : Manifest.t)
  : Manifest.t * result () :=
  match addons with
  | [] => (m, Ok ())
  | addon :: rest =>
      match applyAddon addon m with
      | (m', Ok _) => applyAddons rest m'
      | failed => failed
      end
  end.

(** [ApplyAddons]: the manifest after the call and the error returned *)
Definition ApplyAddons (m : Manifest.t) : Manifest.t * result () :=
  if Manifest.AddOnsApplied m then (m, Ok ())
  else
    match applyAddons (Manifest.AddOns m) m with
    | (m', Ok _) => (Manifest.withAddOnsApplied true m', Ok ())
    | failed => failed
    end.
End Addons.

(** ** Update blocks *)

(** [m.Update.X] where [m.Update] may be nil *)
Definition deref {A} (p : option A) : result A :=
  match p with
  | Some a => Ok a
  | None => Panic
  end.

(** the body of the loop of [PropagateGlobalUpdateBlockToIGs] *)
Definition propagateTo (global : option Update.t) (ig : InstanceGroup.t)
  : result InstanceGroup.t :=
  match InstanceGroup.Update ig with
  | None => Ok (InstanceGroup.withUpdate global ig)
  | Some u =>
      canary ←
        (if String.eqb (Update.CanaryWatchTime u) ""
         then g ← deref global; Ok (Update.CanaryWatchTime g)
         else Ok (Update.CanaryWatchTime u));
      watch ←
        (if String.eqb (Update.UpdateWatchTime u) ""
         then g ← deref global; Ok (Update.UpdateWatchTime g)
         else Ok (Update.UpdateWatchTime u));
      serial ←
        match Update.Serial u with
        | None => g ← deref global; Ok (Update.Serial g)
        | Some b => Ok (Some b)
        end;
      Ok (InstanceGroup.withUpdate
            (Some {| Update.CanaryWatchTime := canary;
                     Update.UpdateWatchTime := watch;
                     Update.Serial := serial |})
            ig)
  end.

(** [PropagateGlobalUpdateBlockToIGs]; it returns nothing, [Panic] is the
    nil dereference *)
Definition PropagateGlobalUpdateBlockToIGs (m : Manifest.t) : result Manifest.t :=
  igs ← forM (propagateTo (Manifest.Update m)) (Manifest.InstanceGroups m);
  Ok (Manifest.withInstanceGroups igs m).

(** ** The resolver *)

(** [strings.Split] on a one-byte separator *)
Fixpoint Split (s : string) (sep : ascii) : list string :=
  match s with
  | EmptyString => [EmptyString]
  | String c s' =>
      if Ascii.eqb c sep then EmptyString :: Split s' sep
      else
        match Split s' sep with
        | p :: ps => String c p :: ps
        | [] => [String c EmptyString]
        end
  end.

(** [bdv1.ImplicitVariableKeyName]; the constant is declared in the API
    package, the comment on [secretRefs] gives its value *)
Definition ImplicitVariableKeyName : string := "value".

(** Names that the resolver takes from packages that are not at hand:
    [names.SecretVariableName], [bdv1.ManifestSpecName] and
    [bdv1.OpsSpecName]. *)
Class Api : Type := {
  SecretVariableName : string -> string;
  ManifestSpecName : string;
  OpsSpecName : string
}.

(** [bdv1.ReferenceType], with the three kinds that [resourceData] knows *)
Inductive ReferenceType : Type :=
| ConfigMapReference
| SecretReference
| URLReference
| OtherReference (kind : string).

(** Modelled from the spec: the custom resource is declared in the API
    package; these are the fields that the resolver reads. *)
Module ResourceReference.
Record t : Type := {
  Name : string;
  Type_ : ReferenceType
}.
End ResourceReference.

Module BOSHDeploymentSpec.
Record t : Type := {
  Manifest : ResourceReference.t;
  Ops : list ResourceReference.t
}.
End BOSHDeploymentSpec.

Module BOSHDeployment.
Record t : Type := {
  Name : string;
  Namespace : string;
  Spec : BOSHDeploymentSpec.t
}.
End BOSHDeployment.

(** What a resolution reads from outside: the data of a config map or of
    a secret ([client.Get], by namespace and name) and the body behind a
    URL ([http.Get] and [ioutil.ReadAll]).  The cluster holds still while a
    manifest is resolved. *)
Class Cluster : Type := {
  getConfigMap : string -> string -> result (gmap string string);
  getSecret : string -> string -> result (gmap string string);
  httpGet : string -> result string
}.

(** The interface [Interpolator]; [newInterpolatorFunc] is the field of
    the resolver that makes a fresh one.  [AddOps] changes the
    interpolator it is called on. *)
Class Interpolator (I : Type) : Type := {
  newInterpolatorFunc : I;
  AddOps : I -> string -> result I;
  Interpolate : I -> string -> result string
}.

(** What [applyVariables] makes of a loaded manifest.  It builds the
    secret references, reads the secrets of the implicit variables and of
    the user's variables from the cluster, has the template evaluated
    twice, applies the addons, has the DNS addon validated and the update
    block applied.  The secrets, the template evaluator, the validator and
    [ApplyUpdateBlock] are outside the two files; both entry points call
    it on the manifest they loaded, and the name of the log, its last
    argument in Go, only labels the lines that [ApplyAddons] logs. *)
Class Variables : Type :=
  applyVariables : BOSHDeployment.t -> string -> Manifest.t -> result Manifest.t.

Record secretInfo : Type := {
  key : string;
  variable : string
}.

Module Resolver.
Section Resolver.
Context {codec : Codec} {api : Api} {cluster : Cluster} {variables : Variables}.
Context {I : Type} {interpolator : Interpolator I}.

(** [secretRefs.add] *)
Definition add (variable secName key : string)
(s : gmap string (list secretInfo)) : gmap string (list secretInfo) :=
let si := default [] (s !! secName) in
<[secName := (si ++ [{| key := key; variable := variable |}])%list]> s.

(** the body of the loop of [buildSecretRefs]: the name of the secret
  and the key in it that an implicit variable stands for *)
Definition secretNameAndKey (v : string) : result (string * string) :=
if SlashedVariable v then
  let parts := Split v "/" in
  if negb (length parts =? 2)%nat then
    Err ("expected one / separator for implicit variable/key name, have "
         ++ pretty (length parts))
  else Ok (SecretVariableName (nth 0 parts ""), nth 1 parts "")
else Ok (SecretVariableName v, ImplicitVariableKeyName).

(** [buildSecretRefs] *)
Definition buildSecretRefs (manifest : Manifest.t)
: result (gmap string (list secretInfo)) :=
vars ← wrapf (ImplicitVariables manifest) "failed to list implicit variables";
foldM (fun refs v =>
         '(secName, key) ← secretNameAndKey v;
         Ok (add v secName key refs))
  ∅ vars.

(** [resourceData] *)
Definition resourceData (namespace : string) (resType : ReferenceType)
(name key : string) : result string :=
match resType with
| ConfigMapReference =>
    data ← wrapf (getConfigMap namespace name)
      ("failed to retrieve " ++ key ++ " from configmap '" ++ namespace
       ++ "/" ++ name ++ "' via client.Get");
    match data !! key with
    | Some d => Ok d
    | None =>
        Err ("configMap '" ++ namespace ++ "/" ++ name
             ++ "' doesn't contain key '" ++ key ++ "'")
    end
| SecretReference =>
    data ← wrapf (getSecret namespace name)
      ("failed to retrieve " ++ key ++ " from secret '" ++ namespace
       ++ "/" ++ name ++ "' via client.Get");
    match data !! key with
    | Some d => Ok d
    | None =>
        Err ("secret '" ++ namespace ++ "/" ++ name
             ++ "' doesn't contain key '" ++ key ++ "'")
    end
| URLReference =>
    wrapf (httpGet name)
      ("failed to resolve " ++ key ++ " from url '" ++ name ++ "' via http.Get")
| OtherReference _ =>
    Err ("unrecognized " ++ key ++ " ref type " ++ name)
end.

(** the loop of [load] over the ops files: each one is fetched and
  added to the one interpolator *)
Fixpoint addAllOps (bdpl : BOSHDeployment.t) (namespace : string)
(ops : list ResourceReference.t) (interpolator : I) : result I :=
match ops with
| [] => Ok interpolator
| op :: rest =>
    opsData ← wrapf
      (resourceData namespace (ResourceReference.Type_ op)
         (ResourceReference.Name op) OpsSpecName)
      ("Interpolation failed for bosh deployment '" ++ BOSHDeployment.Name bdpl
       ++ "' in '" ++ namespace ++ "'");
    interpolator ← wrapf (AddOps interpolator opsData)
      ("Interpolation failed for bosh deployment '" ++ BOSHDeployment.Name bdpl
       ++ "' in '" ++ namespace ++ "'");
    addAllOps bdpl namespace rest interpolator
end.

(** [load] *)
Definition load (bdpl : BOSHDeployment.t) (namespace : string)
: result Manifest.t :=
let spec := BOSHDeployment.Spec bdpl in
m ← wrapf
  (resourceData namespace
     (ResourceReference.Type_ (BOSHDeploymentSpec.Manifest spec))
     (ResourceReference.Name (BOSHDeploymentSpec.Manifest spec))
     ManifestSpecName)
  ("Interpolation failed for bosh deployment '" ++ BOSHDeployment.Name bdpl
   ++ "' in '" ++ namespace ++ "'");
let ops := BOSHDeploymentSpec.Ops spec in
interpolator ← addAllOps bdpl namespace ops newInterpolatorFunc;
bytes ←
  (if negb (length ops =? 0)%nat
   then wrapf (Interpolate interpolator m)
          "Failed to interpolate in interpolation task"
   else Ok m);
wrapf (LoadYAML bytes)
  "Loading yaml failed in interpolation task after applying ops".

(** the loop of [ManifestDetailed] over the ops files: each one is
  fetched, added to an interpolator of its own and evaluated *)
Fixpoint interpolateEach (bdpl : BOSHDeployment.t) (namespace : string)
(ops : list ResourceReference.t) (bytes : string) : result string :=
match ops with
| [] => Ok bytes
| op :: rest =>
    let interpolator := newInterpolatorFunc in
    opsData ← wrapf
      (resourceData namespace (ResourceReference.Type_ op)
         (ResourceReference.Name op) OpsSpecName)
      ("Failed to get resource data for interpolation of bosh deployment '"
       ++ BOSHDeployment.Name bdpl ++ "' and ops '" ++ ResourceReference.Name op
       ++ "' in '" ++ namespace ++ "'");
    interpolator ← wrapf (AddOps interpolator opsData)
      ("Interpolation failed for bosh deployment '" ++ BOSHDeployment.Name bdpl
       ++ "' and ops '" ++ ResourceReference.Name op ++ "' in '" ++ namespace
       ++ "'");
    bytes ← wrapf (Interpolate interpolator bytes)
      ("Failed to interpolate ops '" ++ ResourceReference.Name op
       ++ "' for manifest '" ++ BOSHDeployment.Name bdpl ++ "' in '"
       ++ namespace ++ "'");
    interpolateEach bdpl namespace rest bytes
end.

(** [ManifestDetailed] *)
Definition ManifestDetailed (bdpl : BOSHDeployment.t) (namespace : string)
: result Manifest.t :=
let spec := BOSHDeployment.Spec bdpl in
m ← wrapf
  (resourceData namespace
     (ResourceReference.Type_ (BOSHDeploymentSpec.Manifest spec))
     (ResourceReference.Name (BOSHDeploymentSpec.Manifest spec))
     ManifestSpecName)
  ("Interpolation failed for bosh deployment " ++ namespace);
bytes ← interpolateEach bdpl namespace (BOSHDeploymentSpec.Ops spec) m;
manifest ← wrapf (LoadYAML bytes)
  "Loading yaml failed in interpolation task after applying ops";
manifest ← wrapf (AddReleasesLabels manifest)
  "Add labels for releases failed after interpolation";
wrapf (applyVariables bdpl namespace manifest)
  "Loading yaml failed after applying variable".

(** [ImplicitVariables] of the resolver.  The loop ranges over a Go
  map; the order here is that of [map_to_list]. *)
Definition ImplicitVariables (bdpl : BOSHDeployment.t) (namespace : string)
: result (list string) :=
manifest ← load bdpl namespace;
refs ← wrapf (buildSecretRefs manifest)
  "failed to parse all implicit variable names";
Ok (mjoin ((fun entry =>
      (fun info =>
         if String.eqb (key info) "value" then fst entry
         else fst entry ++ "/" ++ key info) <$> snd entry)
    <$> map_to_list refs)).

(** [Manifest] *)
Definition Manifest (bdpl : BOSHDeployment.t) (namespace : string)
: result Manifest.t :=
manifest ← load bdpl namespace;
manifest ← AddReleasesLabels manifest;
applyVariables bdpl namespace manifest.
End Resolver.
End Resolver.

(** ** Release images *)




(** ** Missing providers *)

(** [listProviderNames].  The links of a job are filled by the JSON
    decoder, so a mapping among them is a [map[string]interface{}], here a
    [VMap]; a name that is not a string counts as the empty one. *)
Definition listProviderNames (providerNames : gmap string bool)
  (providerProperties : anyMap) (providerKey : string) : gmap string bool :=
  foldl (fun providerNames kv =>
           match snd kv with
           | VMap p =>
               match alookup providerKey p with
               | Some nameVal =>
                   let name := match nameVal with VString s => s | _ => "" end in
                   if (String.length name =? 0)%nat then providerNames
                   else <[name := false]> providerNames
               | None => providerNames
               end
           | _ => providerNames
           end)
    providerNames providerProperties.

(** the two maps that the first loop of [ListMissingProviders] fills *)
Definition provideAsNames (m : Manifest.t) : gmap string bool :=
  foldl (fun names ig =>
           foldl (fun names job => listProviderNames names (Job.Provides job) "as")
             names (InstanceGroup.Jobs ig))
    ∅ (Manifest.InstanceGroups m).

Definition consumeFromNames (m : Manifest.t) : gmap string bool :=
  foldl (fun names ig =>
           foldl (fun names job => listProviderNames names (Job.Consumes job) "from")
             names (InstanceGroup.Jobs ig))
    ∅ (Manifest.InstanceGroups m).

(** [ListMissingProviders]; the second loop ranges over the names
    consumed and deletes those that are provided *)
Definition ListMissingProviders (m : Manifest.t) : gmap string bool :=
  foldl (fun consumed providerName =>
           match provideAsNames m !! providerName with
           | Some _ => delete providerName consumed
           | None => consumed
           end)
    (consumeFromNames m) (fst <$> map_to_list (consumeFromNames m)).

(** ** Variables of the user *)

(** [MergeStaticVar]; the type assertion on a value that is neither nil
    nor a map faults *)
Definition MergeStaticVar (staticVar : node) (field value : string)
  : result node :=
  match staticVar with
  | VNil => Ok (VMap [(field, VString value)])
  | VMap staticVarMap => Ok (VMap (ainsert field (VString value) staticVarMap))
  | _ => Panic
  end.

(** The body of the loop over the data of a secret, in [applyVariables]
    and in [InterpolateVariableFromSecrets], that builds
    [staticVars[varName]]. *)
Definition mergeDatum (staticVar : node) (kv : string * string) : result node :=
  if String.eqb (fst kv) "password" then Ok (VString (snd kv))
  else MergeStaticVar staticVar (fst kv) (snd kv).

(** The loop: the data are listed in the order in which the [range] meets
    them, and the variable has no value before the loop. *)
Definition staticVarOf (secretData : list (string * string)) : result node :=
  foldM mergeDatum VNil secretData.

(** ** Stand-ins for what lies outside, used to run the code *)

(** Modelled from the spec: the instance-group dimension of the placement
    match.  Without rules an inclusion matches every group and an
    exclusion none; with rules, a list of group names that is not empty
    has to hold the name of the group.  Rules on another dimension are not
    given to it. *)
Definition placementByGroupName : AddOnPlacement :=
  fun _ kind ig rules =>
    match rules with
    | None => Ok (String.eqb kind "inclusion")
    | Some r =>
        match AddOnPlacementRules.InstanceGroup r with
        | [] => Ok true
        | names => Ok (existsb (String.eqb (InstanceGroup.Name ig)) names)
        end
    end.

(** A codec that replays one recorded exchange: the YAML text of the
    manifest at hand and the tree decoded from it. *)
Definition replayCodec (text : string) (tree : node) : Codec :=
  {| yaml_Marshal := fun _ => Ok text;
     yaml_Unmarshal := fun _ => Err "not recorded";
     goyaml_Unmarshal := fun _ => Ok tree;
     goyaml_Marshal := fun _ => Ok text |}.

(** the rest of [s] after [prefix] *)
Fixpoint TrimPrefix (s prefix : string) : string :=
  match prefix, s with
  | String _ prefix', String _ s' => TrimPrefix s' prefix'
  | _, _ => s
  end.

Definition emptyManifest (uuid : string) : Manifest.t :=
  {| Manifest.DirectorUUID := uuid; Manifest.InstanceGroups := [];
     Manifest.Features := None; Manifest.Tags := ∅; Manifest.Releases := [];
     Manifest.Stemcells := []; Manifest.AddOns := [];
     Manifest.Properties := []; Manifest.Variables := [];
     Manifest.Update := None; Manifest.AddOnsApplied := false |}.

(** A codec for the documents of the one line [director_uuid: <text>]. *)
Definition uuidCodec : Codec :=
  {| yaml_Marshal := fun m => Ok ("director_uuid: " ++ Manifest.DirectorUUID m);
     yaml_Unmarshal := fun s =>
       if HasPrefix s "director_uuid: "
       then Ok (emptyManifest (TrimPrefix s "director_uuid: "))
       else Err "yaml: unexpected document";
     goyaml_Unmarshal := fun s =>
       if HasPrefix s "director_uuid: "
       then Ok (VSlice [VMapItem "director_uuid"
                          (VString (TrimPrefix s "director_uuid: "))])
       else Err "yaml: unexpected document";
     goyaml_Marshal := fun t =>
       match t with
       | VSlice [VMapItem k (VString v)] => Ok (k ++ ": " ++ v)
       | _ => Err "yaml: unexpected document"
       end |}.

(** the names as the upstream project builds them *)
Definition upstreamApi : Api :=
  {| SecretVariableName := fun v => "var-" ++ v;
     ManifestSpecName := "manifest";
     OpsSpecName := "ops" |}.

(** A cluster that holds config maps only, each with its data. *)
Definition configMaps (maps : list (string * gmap string string)) : Cluster :=
  {| getConfigMap := fun _ name =>
       match alookup name maps with
       | Some data => Ok data
       | None => Err ("configmaps " ++ name ++ " not found")
       end;
     getSecret := fun _ name => Err ("secrets " ++ name ++ " not found");
     httpGet := fun _ => Err "no network" |}.

(** Nothing to interpolate after the ops files. *)
Definition noVariables : Variables := fun _ _ manifest => Ok manifest.

(** Two interpolators for ops files that each give a new director UUID.
    Both keep the ops files in the order of [AddOps].  The first applies
    them one after the other, so the last one decides; the second applies
    them from the last to the first, so the first one decides. *)
Definition applyUUID (doc op : string) : string := "director_uuid: " ++ op.

Definition inOrder : Interpolator (list string) :=
  {| newInterpolatorFunc := [];
     AddOps := fun ops op => Ok (ops ++ [op])%list;
     Interpolate := fun ops doc => Ok (foldl applyUUID doc ops) |}.


(** ** Manifests used to run the code *)

Definition plainProperties : JobProperties.t :=
  {| JobProperties.Properties := [];
     JobProperties.Quarks := {| Quarks.IsAddon := false |} |}.

Definition natsJob : Job.t :=
  {| Job.Name := "nats"; Job.Release := "nats";
     Job.Properties := plainProperties; Job.Consumes := [];
     Job.Provides := [] |}.

Definition group (name : string) (update : option Update.t) : InstanceGroup.t :=
  {| InstanceGroup.Name := name; InstanceGroup.Stemcell := "default";
     InstanceGroup.Jobs := [natsJob]; InstanceGroup.Labels := None;
     InstanceGroup.Update := update |}.

Definition globalUpdate : Update.t :=
  {| Update.CanaryWatchTime := "1000-2000";
     Update.UpdateWatchTime := "3000-4000";
     Update.Serial := Some true |}.

(** an update block with [serial] alone *)
Definition serialOnly : Update.t :=
  {| Update.CanaryWatchTime := ""; Update.UpdateWatchTime := "";
     Update.Serial := Some false |}.

Definition loggingAddon (name : string)
  (include exclude : option AddOnPlacementRules.t) : AddOn.t :=
  {| AddOn.Name := name;
     AddOn.Jobs :=
       [{| AddOnJob.Name := "logger"; AddOnJob.Release := "logging";
           AddOnJob.Properties := plainProperties;
           AddOnJob.Consumes := []; AddOnJob.Provides := [] |}];
     AddOn.Include := include; AddOn.Exclude := exclude |}.

(** a manifest with the groups [web] and [db] *)
Definition webAndDb (webUpdate global : option Update.t)
  (addons : list AddOn.t) : Manifest.t :=
  {| Manifest.DirectorUUID := "";
     Manifest.InstanceGroups := [group "web" webUpdate; group "db" None];
     Manifest.Features := None; Manifest.Tags := ∅; Manifest.Releases := [];
     Manifest.Stemcells := []; Manifest.AddOns := addons;
     Manifest.Properties := []; Manifest.Variables := [];
     Manifest.Update := global; Manifest.AddOnsApplied := false |}.

(** rules that name the group [web] only *)
Definition onlyWeb : AddOnPlacementRules.t :=
  {| AddOnPlacementRules.Stemcell := []; AddOnPlacementRules.Deployments := [];
     AddOnPlacementRules.Jobs := []; AddOnPlacementRules.InstanceGroup := ["web"];
     AddOnPlacementRules.Networks := []; AddOnPlacementRules.Teams := [];
     AddOnPlacementRules.Lifecycle := "" |}.

(** the groups [web] and [db] with an addon for [web] *)
Definition loggingOnWeb : Manifest.t :=
  webAndDb None None [loggingAddon "logging" (Some onlyWeb) None].

(** the groups [web] and [db] with the addon [bosh-dns], without rules *)
Definition boshDNSOnly : Manifest.t :=
  webAndDb None None [loggingAddon BoshDNSAddOnName None None].

(** A manifest with the placeholders [((foo))] and [((bar))] in its
    properties, of which [foo] is declared, next to its YAML text and the
    tree decoded from it. *)
Definition fooDeclared : Manifest.t :=
  {| Manifest.DirectorUUID := "abc"; Manifest.InstanceGroups := [];
     Manifest.Features := None; Manifest.Tags := ∅; Manifest.Releases := [];
     Manifest.Stemcells := []; Manifest.AddOns := [];
     Manifest.Properties :=
       [("other", VString "((bar))"); ("secret", VString "((foo))")];
     Manifest.Variables :=
       [{| Var.Name := "foo"; Var.Type_ := "password"; Var.Options := None |}];
     Manifest.Update := None; Manifest.AddOnsApplied := false |}.

Definition fooDeclaredText : string :=
  "director_uuid: abc
properties:
  other: ((bar))
  secret: ((foo))
variables:
- name: foo
  type: password
".

Definition fooDeclaredTree : node :=
  VSlice
    [VMapItem "director_uuid" (VString "abc");
     VMapItem "properties"
       (VSlice [VMapItem "other" (VString "((bar))");
                VMapItem "secret" (VString "((foo))")]);
     VMapItem "variables"
       (VSlice [VSlice [VMapItem "name" (VString "foo");
                        VMapItem "type" (VString "password")]])].

(** a value of 84 bytes, and its SHA-1 *)
Definition longValue : string :=
  "-----BEGIN CERTIFICATE----- MIIDXTCCAkWgAwIBAgIJAKoK/heBjcOuMA0GCSqGSIb3DQEBBQUAMEUx".

Definition longValueHash : string := "db46a6efef58273a9f5ae6788bb13609d0f26774".




Definition twoOpsCluster : Cluster :=
  configMaps
    [("nats-manifest", {["manifest" := "director_uuid: original"]});
     ("ops-a", {["ops" := "from-a"]});
     ("ops-b", {["ops" := "from-b"]})].

(** The release [nats] 1.2.3 without a stemcell of its own, in a group
    on the stemcell [default], which is ubuntu 1; the URL of the release
    ends with a slash. *)
Definition natsOnUbuntu : Manifest.t :=
  {| Manifest.DirectorUUID := "";
     Manifest.InstanceGroups := [group "nats" None];
     Manifest.Features := None; Manifest.Tags := ∅;
     Manifest.Releases :=
       [{| Release.Name := "nats"; Release.Version := "1.2.3";
           Release.URL := "docker.io/cfcontainerization/";
           Release.SHA1 := ""; Release.Stemcell := None |}];
     Manifest.Stemcells :=
       [{| Stemcell.Alias := "default"; Stemcell.OS := "ubuntu";
           Stemcell.Version := "1"; Stemcell.Name := "" |}];
     Manifest.AddOns := []; Manifest.Properties := [];
     Manifest.Variables := []; Manifest.Update := None;
     Manifest.AddOnsApplied := false |}.

(** two groups: a job of [web] consumes links from [nats-link] and from
    [db-link], a job of [db] provides a link as [db-link] *)
Definition linkedGroups : Manifest.t :=
  {| Manifest.DirectorUUID := "";
     Manifest.InstanceGroups :=
       [{| InstanceGroup.Name := "web"; InstanceGroup.Stemcell := "default";
           InstanceGroup.Jobs :=
             [{| Job.Name := "router"; Job.Release := "routing";
                 Job.Properties := plainProperties;
                 Job.Consumes :=
                   [("nats", VMap [("from", VString "nats-link")]);
                    ("db", VMap [("from", VString "db-link")])];
                 Job.Provides := [] |}];
           InstanceGroup.Labels := None; InstanceGroup.Update := None |};
        {| InstanceGroup.Name := "db"; InstanceGroup.Stemcell := "default";
           InstanceGroup.Jobs :=
             [{| Job.Name := "postgres"; Job.Release := "postgres";
                 Job.Properties := plainProperties;
                 Job.Consumes := [];
                 Job.Provides := [("postgres", VMap [("as", VString "db-link")])] |}];
           InstanceGroup.Labels := None; InstanceGroup.Update := None |}];
     Manifest.Features := None; Manifest.Tags := ∅; Manifest.Releases := [];
     Manifest.Stemcells := []; Manifest.AddOns := [];
     Manifest.Properties := []; Manifest.Variables := [];
     Manifest.Update := None; Manifest.AddOnsApplied := false |}.

(** the deployment [twoOps] with an ops file that no config map holds *)
Definition missingOps : BOSHDeployment.t :=
  {| BOSHDeployment.Name := "nats-deployment";
     BOSHDeployment.Namespace := "default";
     BOSHDeployment.Spec :=
       {| BOSHDeploymentSpec.Manifest :=
            {| ResourceReference.Name := "nats-manifest";
               ResourceReference.Type_ := ConfigMapReference |};
          BOSHDeploymentSpec.Ops :=
            [{| ResourceReference.Name := "ops-a";
                ResourceReference.Type_ := ConfigMapReference |};
             {| ResourceReference.Name := "ops-missing";
                ResourceReference.Type_ := ConfigMapReference |}] |} |}.

(** ** Predicates used to state the properties *)

(** an update block none of whose three sub-fields is unset *)
Definition fullySet (u : Update.t) : Prop :=
  Update.CanaryWatchTime u <> "" /\ Update.UpdateWatchTime u <> "" /\
  Update.Serial u <> None.

(** a job whose properties carry the addon mark *)
Definition isAddon (job : Job.t) : Prop :=
  Quarks.IsAddon (JobProperties.Quarks (Job.Properties job)) = true.

(** every byte of [s] satisfies [p] *)
Fixpoint allChars (p : ascii -> bool) (s : string) : bool :=
  match s with
  | EmptyString => true
  | String c s' => p c && allChars p s'
  end.

Definition notSlash (c : ascii) : bool := negb (Ascii.eqb c "/").

(** A tree of slices and [MapItem]s, without a Go map, in which the
    string held by a [MapItem] has at most 64 bytes. *)
Fixpoint shortItems (t : node) : bool :=
  match t with
  | VSlice l => forallb shortItems l
  | VMapItem _ (VString s) => (String.length s <=? 64)%nat
  | VMapItem _ v => shortItems v
  | VMap _ => false
  | _ => true
  end.


(** the data of one ops file, as both loops fetch it *)
Definition fetch {api : Api} {cluster : Cluster} (namespace : string)
  (op : ResourceReference.t) : result string :=
  Resolver.resourceData namespace (ResourceReference.Type_ op)
    (ResourceReference.Name op) OpsSpecName.

(** one round of the loop of [ManifestDetailed], the data being fetched *)
Definition evaluateOne {I : Type} {interpolator : Interpolator I}
  (doc opsData : string) : result string :=
  AddOps newInterpolatorFunc opsData ≫= fun j => Interpolate j doc.

(** [ig'] is [ig] with addon jobs appended to its jobs *)
Definition addonJobsAppended (ig ig' : InstanceGroup.t) : Prop :=
  InstanceGroup.Name ig' = InstanceGroup.Name ig /\
  InstanceGroup.Stemcell ig' = InstanceGroup.Stemcell ig /\
  InstanceGroup.Labels ig' = InstanceGroup.Labels ig /\
  InstanceGroup.Update ig' = InstanceGroup.Update ig /\
  exists added,
    InstanceGroup.Jobs ig' = (InstanceGroup.Jobs ig ++ added)%list /\
    Forall isAddon added.

(** [m'] is [m] but for the jobs of its instance groups, to which addon
    jobs were appended group by group *)
Definition groupsExtended (m m' : Manifest.t) : Prop :=
  Manifest.withInstanceGroups [] m' = Manifest.withInstanceGroups [] m /\
  Forall2 addonJobsAppended (Manifest.InstanceGroups m)
    (Manifest.InstanceGroups m').

(** [old] occurs nowhere in [s] *)
Definition absent (old s : string) : Prop :=
  forall a b, s <> a ++ old ++ b.

(** the table of a walk: each entry stands under its own hash *)
Definition keyedByHash (dv : duplicates) : Prop :=
  forall h d, alookup h dv = Some d -> Hash d = h.

(** [old] occurs somewhere in [s] *)
Fixpoint occurs (old s : string) : bool :=
  HasPrefix s old ||
  match s with
  | EmptyString => false
  | String _ s' => occurs old s'
  end.



(** no datum of the secret is called [password] *)
Definition noPassword (secretData : list (string * string)) : Prop :=
  Forall (fun kv => fst kv <> "password") secretData.


(** the key of the label that [AddReleasesLabels] writes for a job *)
Definition versionLabel (job : Job.t) : string :=
  "app.kubernetes.io/version-image-" ++ Job.Release job.

(** the labels of an instance group, the nil map read as the empty one *)
Definition labelsOf (labels : option (gmap string string)) : gmap string string :=
  default ∅ labels.

(** [ig'] is [ig] but for the labels of the releases of its jobs *)
Definition releasesLabelled (ig ig' : InstanceGroup.t) : Prop :=
  InstanceGroup.Name ig' = InstanceGroup.Name ig /\
  InstanceGroup.Stemcell ig' = InstanceGroup.Stemcell ig /\
  InstanceGroup.Jobs ig' = InstanceGroup.Jobs ig /\
  InstanceGroup.Update ig' = InstanceGroup.Update ig /\
  forall k,
    (forall job, job ∈ InstanceGroup.Jobs ig -> k <> versionLabel job) ->
    labelsOf (InstanceGroup.Labels ig') !! k
    = labelsOf (InstanceGroup.Labels ig) !! k.

(** one of the links names [name], a string that is not empty, under
    [providerKey] *)
Definition links (providerKey : string) (providerProperties : anyMap)
  (name : string) : Prop :=
  name <> "" /\
  exists k p,
    (k, VMap p) ∈ providerProperties /\
    alookup providerKey p = Some (VString name).

(** some job of the manifest provides a link as [name] *)
Definition provides (m : Manifest.t) (name : string) : Prop :=
  exists ig job,
    ig ∈ Manifest.InstanceGroups m /\ job ∈ InstanceGroup.Jobs ig /\
    links "as" (Job.Provides job) name.

(** some job of the manifest consumes a link from [name] *)
Definition consumes (m : Manifest.t) (name : string) : Prop :=
  exists ig job,
    ig ∈ Manifest.InstanceGroups m /\ job ∈ InstanceGroup.Jobs ig /\
    links "from" (Job.Consumes job) name.

(** * Properties *)

Example sha1_abc :
  sha1_hex "abc" = "a9993e364706816aba3e25717850c26c9cd0d89d".
Proof. vm_compute. reflexivity. Qed.

Example sha1_empty :
  sha1_hex "" = "da39a3ee5e6b4b0d3255bfef95601890afd80709".
Proof. vm_compute. reflexivity. Qed.

Example sha1_two_blocks :
  sha1_hex "abcdbcdecdefdefgefghfghighijhijkijkljklmklmnlmnomnopnopq"
  = "84983e441c3bd26ebaae4aa1f95129e5e54670f1".
Proof. vm_compute. reflexivity. Qed.

(** ** Loops *)

Lemma forM_lookup {A B} (f : A -> result B) (l : list A) (l' : list B) :
  forM f l = Ok l' ->
  forall i a, l !! i = Some a -> exists b, l' !! i = Some b /\ f a = Ok b.
Proof.
  revert l'. induction l as [|x l IH]; intros l' Hl i a Hi.
  - destruct i; discriminate.
  - cbn in Hl. destruct (f x) as [b| |] eqn:Hx; try discriminate.
    cbn in Hl. destruct (forM f l) as [bs| |] eqn:Hbs; try discriminate.
    cbn in Hl. injection Hl as <-.
    destruct i as [|i]; cbn in Hi.
    + injection Hi as <-. exists b. split; [reflexivity | assumption].
    + apply (IH bs eq_refl i a Hi).
Qed.

Lemma forM_length {A B} (f : A -> result B) (l : list A) (l' : list B) :
  forM f l = Ok l' -> length l' = length l.
Proof.
  revert l'. induction l as [|x l IH]; intros l' Hl; cbn in Hl.
  - injection Hl as <-. reflexivity.
  - destruct (f x) as [b| |]; try discriminate. cbn in Hl.
    destruct (forM f l) as [bs| |]; try discriminate. cbn in Hl.
    injection Hl as <-. cbn. f_equal. apply IH. reflexivity.
Qed.

Lemma forM_total {A B} (f : A -> result B) (l : list A) :
  Forall (fun a => exists b, f a = Ok b) l -> exists l', forM f l = Ok l'.
Proof.
  induction 1 as [|x l [b Hb] _ [bs Hbs]].
  - exists []. reflexivity.
  - exists (b :: bs). cbn. rewrite Hb. cbn. rewrite Hbs. reflexivity.
Qed.

Lemma forM_id {A} (f : A -> result A) (l : list A) :
  Forall (fun a => f a = Ok a) l -> forM f l = Ok l.
Proof.
  induction 1 as [|x l Hx _ IH]; [reflexivity|].
  cbn. rewrite Hx. cbn. rewrite IH. reflexivity.
Qed.

(** ** Update blocks *)

(** what one round of the loop leaves of an instance group *)
Lemma propagateTo_Ok (global : option Update.t) (ig ig' : InstanceGroup.t) :
  propagateTo global ig = Ok ig' ->
  InstanceGroup.Name ig' = InstanceGroup.Name ig /\
  InstanceGroup.Stemcell ig' = InstanceGroup.Stemcell ig /\
  InstanceGroup.Jobs ig' = InstanceGroup.Jobs ig /\
  InstanceGroup.Labels ig' = InstanceGroup.Labels ig /\
  (InstanceGroup.Update ig = None -> InstanceGroup.Update ig' = global) /\
  (forall u, InstanceGroup.Update ig = Some u ->
     exists u',
       InstanceGroup.Update ig' = Some u' /\
       (Update.CanaryWatchTime u <> "" ->
          Update.CanaryWatchTime u' = Update.CanaryWatchTime u) /\
       (Update.CanaryWatchTime u = "" ->
          exists g, global = Some g /\
            Update.CanaryWatchTime u' = Update.CanaryWatchTime g) /\
       (Update.UpdateWatchTime u <> "" ->
          Update.UpdateWatchTime u' = Update.UpdateWatchTime u) /\
       (Update.UpdateWatchTime u = "" ->
          exists g, global = Some g /\
            Update.UpdateWatchTime u' = Update.UpdateWatchTime g) /\
       (Update.Serial u <> None -> Update.Serial u' = Update.Serial u) /\
       (Update.Serial u = None ->
          exists g, global = Some g /\ Update.Serial u' = Update.Serial g)).
Proof.
  unfold propagateTo. destruct (InstanceGroup.Update ig) as [u|] eqn:Hu.
  - destruct global as [g|];
      destruct (String.eqb_spec (Update.CanaryWatchTime u) "") as [Hc|Hc];
      destruct (String.eqb_spec (Update.UpdateWatchTime u) "") as [Hw|Hw];
      destruct (Update.Serial u) as [b|] eqn:Hs; cbn;
      intros Hrun; try discriminate Hrun; injection Hrun as <-; cbn;
      do 4 (split; [reflexivity|]); (split; [discriminate|]);
      intros u0 [= <-]; (eexists; split; [reflexivity|]); cbn;
      repeat split; intros; try congruence; eauto.
  - intros [= <-]. cbn. do 4 (split; [reflexivity|]).
    split; [reflexivity | discriminate].
Qed.

Lemma propagateTo_global (g : Update.t) (ig : InstanceGroup.t) :
  exists ig', propagateTo (Some g) ig = Ok ig'.
Proof.
  unfold propagateTo. destruct (InstanceGroup.Update ig) as [u|].
  - destruct (String.eqb (Update.CanaryWatchTime u) "");
      destruct (String.eqb (Update.UpdateWatchTime u) "");
      destruct (Update.Serial u); cbn; eauto.
  - eauto.
Qed.

(** C7.  With a global update block the propagation completes.  Whenever
    it completes, an instance group without an update block has got the
    global one whole; in an instance group with an update block, the
    canary watch time and the update watch time are taken from the global
    block where they were empty, the serial flag where it was nil, and the
    sub-fields that were set are as they were.  Nothing else of an
    instance group changes. *)
Theorem PropagateGlobalUpdateBlockToIGs_merges_fields :
  (forall (m : Manifest.t) (g : Update.t),
     Manifest.Update m = Some g ->
     exists m', PropagateGlobalUpdateBlockToIGs m = Ok m') /\
  (forall m m' : Manifest.t,
     PropagateGlobalUpdateBlockToIGs m = Ok m' ->
     length (Manifest.InstanceGroups m') = length (Manifest.InstanceGroups m) /\
     forall i ig, Manifest.InstanceGroups m !! i = Some ig ->
       exists ig',
         Manifest.InstanceGroups m' !! i = Some ig' /\
         InstanceGroup.Name ig' = InstanceGroup.Name ig /\
         InstanceGroup.Stemcell ig' = InstanceGroup.Stemcell ig /\
         InstanceGroup.Jobs ig' = InstanceGroup.Jobs ig /\
         InstanceGroup.Labels ig' = InstanceGroup.Labels ig /\
         (InstanceGroup.Update ig = None ->
            InstanceGroup.Update ig' = Manifest.Update m) /\
         (forall u, InstanceGroup.Update ig = Some u ->
            exists u',
              InstanceGroup.Update ig' = Some u' /\
              (Update.CanaryWatchTime u <> "" ->
                 Update.CanaryWatchTime u' = Update.CanaryWatchTime u) /\
              (Update.CanaryWatchTime u = "" ->
                 exists g, Manifest.Update m = Some g /\
                   Update.CanaryWatchTime u' = Update.CanaryWatchTime g) /\
              (Update.UpdateWatchTime u <> "" ->
                 Update.UpdateWatchTime u' = Update.UpdateWatchTime u) /\
              (Update.UpdateWatchTime u = "" ->
                 exists g, Manifest.Update m = Some g /\
                   Update.UpdateWatchTime u' = Update.UpdateWatchTime g) /\
              (Update.Serial u <> None -> Update.Serial u' = Update.Serial u) /\
              (Update.Serial u = None ->
                 exists g, Manifest.Update m = Some g /\
                   Update.Serial u' = Update.Serial g))).
Proof.
  split.
  - intros m g Hg. unfold PropagateGlobalUpdateBlockToIGs. rewrite Hg.
    destruct (forM_total (propagateTo (Some g)) (Manifest.InstanceGroups m))
      as [igs Higs].
    { apply Forall_true. intros ig. apply propagateTo_global. }
    rewrite Higs. cbn. eauto.
  - intros m m' Hrun. unfold PropagateGlobalUpdateBlockToIGs in Hrun.
    destruct (forM (propagateTo (Manifest.Update m)) (Manifest.InstanceGroups m))
      as [igs| |] eqn:Higs; try discriminate.
    cbn in Hrun. injection Hrun as <-. cbn.
    split; [apply (forM_length _ _ _ Higs)|].
    intros i ig Hi.
    destruct (forM_lookup _ _ _ Higs i ig Hi) as (ig' & Hi' & Hstep).
    exists ig'. split; [exact Hi' | exact (propagateTo_Ok _ _ _ Hstep)].
Qed.

Lemma PropagateGlobalUpdateBlockToIGs_merges_fields_witness :
  exists m',
    PropagateGlobalUpdateBlockToIGs
      (webAndDb (Some serialOnly) (Some globalUpdate) []) = Ok m' /\
    length (Manifest.InstanceGroups m') = 2 /\
    exists web db,
      Manifest.InstanceGroups m' = [web; db] /\
      InstanceGroup.Update web =
        Some {| Update.CanaryWatchTime := "1000-2000";
                Update.UpdateWatchTime := "3000-4000";
                Update.Serial := Some false |} /\
      InstanceGroup.Update db = Some globalUpdate.
Proof.
  destruct (proj1 PropagateGlobalUpdateBlockToIGs_merges_fields
              (webAndDb (Some serialOnly) (Some globalUpdate) []) globalUpdate
              eq_refl) as (m' & Hrun).
  exists m'. split; [exact Hrun|].
  split;
    [exact (proj1 (proj2 PropagateGlobalUpdateBlockToIGs_merges_fields _ _ Hrun))|].
  vm_compute in Hrun. injection Hrun as <-.
  do 2 eexists. repeat split; reflexivity.
Defined.

Lemma propagateTo_nil_full (ig : InstanceGroup.t) :
  (forall u, InstanceGroup.Update ig = Some u -> fullySet u) ->
  propagateTo None ig = Ok ig.
Proof.
  intros Hfull. unfold propagateTo. destruct ig as [n s j l [u|]]; cbn in *.
  - destruct (Hfull u eq_refl) as (Hc & Hw & Hs).
    destruct u as [c w [b|]]; cbn in *; [|congruence].
    destruct (String.eqb_spec c "") as [?|_]; [congruence|].
    destruct (String.eqb_spec w "") as [?|_]; [congruence|].
    reflexivity.
  - reflexivity.
Qed.

Lemma propagateTo_nil_partial (ig : InstanceGroup.t) (u : Update.t) :
  InstanceGroup.Update ig = Some u -> ~ fullySet u ->
  propagateTo None ig = Panic.
Proof.
  intros Hu Hpart. unfold propagateTo. rewrite Hu.
  destruct (String.eqb_spec (Update.CanaryWatchTime u) "") as [Hc|Hc];
    [reflexivity|].
  destruct (String.eqb_spec (Update.UpdateWatchTime u) "") as [Hw|Hw];
    [reflexivity|].
  destruct (Update.Serial u) as [b|] eqn:Hs; [|reflexivity].
  exfalso. apply Hpart. unfold fullySet. rewrite Hs. repeat split; congruence.
Qed.

Lemma propagateTo_no_error (global : option Update.t) (ig : InstanceGroup.t)
  (e : string) : propagateTo global ig <> Err e.
Proof.
  unfold propagateTo. destruct (InstanceGroup.Update ig) as [u|]; [|discriminate].
  destruct global as [g|];
    destruct (String.eqb (Update.CanaryWatchTime u) "");
    destruct (String.eqb (Update.UpdateWatchTime u) "");
    destruct (Update.Serial u); discriminate.
Qed.

Lemma forM_propagateTo_panic (igs : list InstanceGroup.t)
  (ig : InstanceGroup.t) (u : Update.t) :
  ig ∈ igs -> InstanceGroup.Update ig = Some u -> ~ fullySet u ->
  forM (propagateTo None) igs = Panic.
Proof.
  intros Hin Hu Hpart.
  induction igs as [|x igs IH]; [inversion Hin|].
  cbn. destruct (propagateTo None x) as [x'|e|] eqn:Hx.
  - cbn. rewrite IH; [reflexivity|].
    apply elem_of_cons in Hin as [->|Hin]; [|exact Hin].
    rewrite (propagateTo_nil_partial _ _ Hu Hpart) in Hx. discriminate.
  - exfalso. exact (propagateTo_no_error _ _ _ Hx).
  - reflexivity.
Qed.

(** C10.  Without a global update block: when every instance group has
    either no update block or one with its three sub-fields set, the
    propagation completes and changes nothing, so the instance groups
    without an update block stay without one; when some instance group
    has an update block with an unset sub-field, the propagation faults on
    the nil global block, and there is such a manifest. *)
Theorem PropagateGlobalUpdateBlockToIGs_nil_global :
  (forall m : Manifest.t,
     Manifest.Update m = None ->
     Forall (fun ig => forall u, InstanceGroup.Update ig = Some u -> fullySet u)
       (Manifest.InstanceGroups m) ->
     PropagateGlobalUpdateBlockToIGs m = Ok m) /\
  (forall (m : Manifest.t) (ig : InstanceGroup.t) (u : Update.t),
     Manifest.Update m = None ->
     ig ∈ Manifest.InstanceGroups m ->
     InstanceGroup.Update ig = Some u -> ~ fullySet u ->
     PropagateGlobalUpdateBlockToIGs m = Panic) /\
  (exists (m : Manifest.t) (ig : InstanceGroup.t) (u : Update.t),
     Manifest.Update m = None /\
     ig ∈ Manifest.InstanceGroups m /\
     InstanceGroup.Update ig = Some u /\ ~ fullySet u /\
     PropagateGlobalUpdateBlockToIGs m = Panic).
Proof.
  split; [|split].
  - intros m Hnil Hfull. unfold PropagateGlobalUpdateBlockToIGs.
    rewrite Hnil, forM_id.
    + destruct m; reflexivity.
    + eapply Forall_impl; [exact Hfull|]. intros ig. apply propagateTo_nil_full.
  - intros m ig u Hnil Hin Hu Hpart. unfold PropagateGlobalUpdateBlockToIGs.
    rewrite Hnil, (forM_propagateTo_panic _ _ _ Hin Hu Hpart). reflexivity.
  - exists (webAndDb (Some serialOnly) None []), (group "web" (Some serialOnly)),
      serialOnly.
    split; [reflexivity|]. split; [apply list_elem_of_here|].
    split; [reflexivity|]. split; [|reflexivity].
    intros (Hc & _). apply Hc. reflexivity.
Qed.

Lemma PropagateGlobalUpdateBlockToIGs_nil_global_witness :
  PropagateGlobalUpdateBlockToIGs (webAndDb (Some globalUpdate) None [])
  = Ok (webAndDb (Some globalUpdate) None []) /\
  PropagateGlobalUpdateBlockToIGs (webAndDb (Some serialOnly) None []) = Panic.
Proof.
  split.
  - apply (proj1 PropagateGlobalUpdateBlockToIGs_nil_global); [reflexivity|].
    cbn. constructor; [|constructor; [|constructor]].
    + intros u [= <-]. repeat split; discriminate.
    + intros u [=].
  - apply (proj1 (proj2 PropagateGlobalUpdateBlockToIGs_nil_global)
             _ (group "web" (Some serialOnly)) serialOnly);
      [reflexivity | apply list_elem_of_here | reflexivity |].
    intros (Hc & _). apply Hc. reflexivity.
Defined.

(** ** Addons *)

(** C3.  A call of [ApplyAddons] that returns nil leaves [AddOnsApplied]
    set, and a second call on the manifest it leaves returns nil and
    changes nothing, the job lists of the instance groups included. *)
Theorem ApplyAddons_idempotent {placement : AddOnPlacement}
  (m m' : Manifest.t) :
  ApplyAddons m = (m', Ok ()) ->
  Manifest.AddOnsApplied m' = true /\
  ApplyAddons m' = (m', Ok ()) /\
  InstanceGroup.Jobs <$> Manifest.InstanceGroups (fst (ApplyAddons m'))
  = InstanceGroup.Jobs <$> Manifest.InstanceGroups m'.
Proof.
  intros Hrun.
  assert (Hflag : Manifest.AddOnsApplied m' = true).
  { unfold ApplyAddons in Hrun.
    destruct (Manifest.AddOnsApplied m) eqn:Hm.
    - injection Hrun as <-. exact Hm.
    - destruct (applyAddons (Manifest.AddOns m) m) as [m'' [[]|e|]];
        try discriminate.
      injection Hrun as <-. reflexivity. }
  assert (Hagain : ApplyAddons m' = (m', Ok ())).
  { unfold ApplyAddons. rewrite Hflag. reflexivity. }
  rewrite Hagain. repeat split; assumption.
Qed.

Lemma ApplyAddons_idempotent_witness :
  exists m',
    ApplyAddons (placement := placementByGroupName) loggingOnWeb = (m', Ok ()) /\
    (length <$> (InstanceGroup.Jobs <$> Manifest.InstanceGroups m')) = [2; 1] /\
    Manifest.AddOnsApplied m' = true /\
    ApplyAddons (placement := placementByGroupName) m' = (m', Ok ()).
Proof.
  pose (run := ApplyAddons (placement := placementByGroupName) loggingOnWeb).
  assert (Hrun : run = (fst run, Ok ())) by (vm_compute; reflexivity).
  exists (fst run). split; [exact Hrun|].
  split; [vm_compute; reflexivity|].
  destruct (ApplyAddons_idempotent loggingOnWeb _ Hrun) as (Hflag & Hagain & _).
  split; assumption.
Defined.


Lemma addedJob_isAddon (jobs : list AddOnJob.t) :
  Forall isAddon (addedJob <$> jobs).
Proof. induction jobs; constructor; [reflexivity | assumption]. Qed.



(** ** Variable discovery *)

Lemma foldl_insert_const {A} (f : A -> string) (b : bool) (l : list A)
  (M : gmap string bool) (k : string) :
  foldl (fun M x => <[f x := b]> M) M l !! k
  = if decide (k ∈ f <$> l) then Some b else M !! k.
Proof.
  revert M. induction l as [|x l IH]; intros M; cbn.
  - destruct (decide (k ∈ [])) as [Hin|_]; [inversion Hin | reflexivity].
  - rewrite IH.
    destruct (decide (k ∈ f <$> l)) as [Hin|Hout].
    + rewrite decide_True; [reflexivity|]. apply list_elem_of_further, Hin.
    + destruct (decide (k = f x)) as [->|Hne].
      * rewrite lookup_insert_eq, decide_True; [reflexivity|].
        apply list_elem_of_here.
      * rewrite lookup_insert_ne by congruence.
        rewrite decide_False; [reflexivity|].
        intros [?|?]%elem_of_cons; contradiction.
Qed.

Lemma collectVariables_lookup (rawManifest : string) (variables : list Var.t)
  (k : string) :
  collectVariables rawManifest variables !! k
  = if decide (k ∈ Var.Name <$> variables) then Some false
    else if decide (k ∈ variableName <$> FindAllStringSubmatch rawManifest)
         then Some true else None.
Proof.
  unfold collectVariables. rewrite !foldl_insert_const, lookup_empty.
  reflexivity.
Qed.

(** The names returned are those found as placeholders and not declared. *)
Lemma ImplicitVariables_elem {codec : Codec} (m : Manifest.t)
  (rawManifest : string) (names : list string) :
  Marshal m = Ok rawManifest ->
  ImplicitVariables m = Ok names ->
  forall k, k ∈ names <->
    k ∈ variableName <$> FindAllStringSubmatch rawManifest /\
    k ∉ Var.Name <$> Manifest.Variables m.
Proof.
  intros Hraw Hnames k. unfold ImplicitVariables in Hnames.
  rewrite Hraw in Hnames. cbn in Hnames. injection Hnames as <-.
  rewrite list_elem_of_fmap. split.
  - intros ([k' b] & -> & [Hb Hin]%list_elem_of_filter). cbn in *. subst b.
    apply elem_of_map_to_list in Hin.
    rewrite collectVariables_lookup in Hin.
    repeat case_decide; try discriminate. split; assumption.
  - intros [Hfound Hfree]. exists (k, true). split; [reflexivity|].
    apply list_elem_of_filter. split; [reflexivity|].
    apply elem_of_map_to_list. rewrite collectVariables_lookup.
    rewrite decide_False by assumption. rewrite decide_True by assumption.
    reflexivity.
Qed.

(** C9.  No name that the manifest declares in [Variables] is among the
    names that [ImplicitVariables] returns, whether or not the name stands
    as a placeholder in the serialized manifest. *)
Theorem ImplicitVariables_excludes_declared {codec : Codec}
  (m : Manifest.t) (names : list string) (v : Var.t) :
  ImplicitVariables m = Ok names ->
  v ∈ Manifest.Variables m ->
  Var.Name v ∉ names.
Proof.
  intros Hnames Hv Hin.
  destruct (Marshal m) as [rawManifest| |] eqn:Hraw;
    try (unfold ImplicitVariables in Hnames; rewrite Hraw in Hnames;
         discriminate).
  destruct (proj1 (ImplicitVariables_elem m rawManifest names Hraw Hnames
                     (Var.Name v)) Hin) as [_ Hfree].
  apply Hfree, list_elem_of_fmap. exists v. split; [reflexivity | exact Hv].
Qed.

Lemma ImplicitVariables_excludes_declared_witness :
  variableName <$> FindAllStringSubmatch fooDeclaredText = ["bar"; "foo"] /\
  ImplicitVariables (codec := replayCodec fooDeclaredText fooDeclaredTree)
    fooDeclared = Ok ["bar"] /\
  "foo" ∉ ["bar"].
Proof.
  split; [vm_compute; reflexivity|].
  split; [vm_compute; reflexivity|].
  apply (ImplicitVariables_excludes_declared
           (codec := replayCodec fooDeclaredText fooDeclaredTree)
           fooDeclared ["bar"]
           {| Var.Name := "foo"; Var.Type_ := "password"; Var.Options := None |}).
  - vm_compute. reflexivity.
  - apply list_elem_of_here.
Defined.

(** ** Classification of the implicit variables *)


Lemma containsSlash_cons (c : ascii) (s : string) :
  containsSlash (String c s) = Ascii.eqb c "/" || containsSlash s.
Proof. reflexivity. Qed.

Lemma append_cons (c : ascii) (a b : string) :
  String c a ++ b = String c (a ++ b).
Proof. reflexivity. Qed.








Lemma span_cons (p : ascii -> bool) (c : ascii) (s : string) :
  span p (String c s)
  = if p c then let '(a, b) := span p s in (String c a, b)
    else (EmptyString, String c s).
Proof. reflexivity. Qed.




(** ** Duplicate values *)

Lemma node_ind' (P : node -> Prop) :
  P VNil ->
  (forall x, P (VScalar x)) ->
  (forall s, P (VString s)) ->
  (forall l, Forall P l -> P (VSlice l)) ->
  (forall key val, P val -> P (VMapItem key val)) ->
  (forall m, Forall (fun kv => P (snd kv)) m -> P (VMap m)) ->
  forall t, P t.
Proof.
  intros HNil HScalar HString HSlice HItem HMap.
  fix IH 1. intros [ |x|s|l|key val|m].
  - exact HNil.
  - apply HScalar.
  - apply HString.
  - apply HSlice. induction l as [|x l IHl]; constructor; [apply IH | exact IHl].
  - apply HItem, IH.
  - apply HMap. induction m as [|[k v] m IHm]; constructor; [apply IH | exact IHm].
Qed.

Lemma bigEnough_short (s : string) :
  String.length s <= 64 -> bigEnough s = false.
Proof.
  intros Hs. unfold bigEnough.
  destruct (Nat.ltb_spec 64 (String.length s)); [lia | apply andb_false_r].
Qed.

(** In the struct case a string of at most 64 bytes is left alone: it is
    not hashed, its key is not rewritten, and no alias takes its place,
    whatever the table holds. *)
Lemma markDuplicateValues_item_short (key s : string) (dv : duplicates) :
  String.length s <= 64 ->
  markDuplicateValues (VMapItem key (VString s)) dv
  = (VMapItem key (VString s), dv).
Proof.
  intros Hs. cbn. rewrite (bigEnough_short s Hs). reflexivity.
Qed.

(** The same for a whole tree without Go maps. *)
Lemma markDuplicateValues_shortItems (t : node) :
  shortItems t = true ->
  forall dv, markDuplicateValues t dv = (t, dv).
Proof.
  induction t as [ |x|s|l IHl|key val IHval|m _] using node_ind';
    intros Hshort dv; try reflexivity.
  - cbn in Hshort. cbn.
    enough (Hl : forall dv,
      (fix elems (l : list node) (dv : duplicates) : list node * duplicates :=
         match l with
         | [] => ([], dv)
         | x :: xs =>
             let '(x', dv1) := markDuplicateValues x dv in
             let '(xs', dv2) := elems xs dv1 in
             (x' :: xs', dv2)
         end) l dv = (l, dv)) by (rewrite Hl; reflexivity).
    clear dv. induction l as [|x l IH]; intros dv; [reflexivity|].
    cbn in Hshort. apply andb_true_iff in Hshort as [Hx Hl].
    apply Forall_cons in IHl as [IHx IHl].
    rewrite (IHx Hx dv), (IH IHl Hl dv). reflexivity.
  - destruct val as [ |x|s|l|key' val'|m].
    + reflexivity.
    + reflexivity.
    + apply markDuplicateValues_item_short. cbn in Hshort.
      apply Nat.leb_le, Hshort.
    + change (markDuplicateValues (VMapItem key (VSlice l)) dv)
        with (let '(val', dv') := markDuplicateValues (VSlice l) dv in
              (VMapItem key val', dv')).
      rewrite (IHval Hshort dv). reflexivity.
    + change (markDuplicateValues (VMapItem key (VMapItem key' val')) dv)
        with (let '(val', dv') := markDuplicateValues (VMapItem key' val') dv in
              (VMapItem key val', dv')).
      rewrite (IHval Hshort dv). reflexivity.
    + discriminate.
  - discriminate.
Qed.

Lemma bigEnough_long (s : string) :
  64 < String.length s -> bigEnough s = true.
Proof.
  intros Hs. unfold bigEnough.
  destruct (Nat.ltb_spec 64 (String.length s)); [|lia].
  destruct s; [cbn in Hs; lia | reflexivity].
Qed.

(** In the struct case the first long string with a given hash keeps its
    value and gets the marker [key=hash] for a key; it enters the table. *)
Lemma markDuplicateValues_item_long_first (key s : string) (dv : duplicates) :
  64 < String.length s ->
  alookup (sha1_hex s) dv = None ->
  markDuplicateValues (VMapItem key (VString s)) dv
  = (VMapItem (key ++ "=" ++ sha1_hex s) (VString s),
     ainsert (sha1_hex s) {| Hash := sha1_hex s; YamlKeyMarker := key |} dv).
Proof.
  intros Hs Hnew. cbn [markDuplicateValues].
  rewrite (bigEnough_long s Hs), Hnew. reflexivity.
Qed.

(** A later one becomes the alias [*hash]; key and table stay. *)
Lemma markDuplicateValues_item_long_again (key s : string) (dv : duplicates)
  (d : duplicateYamlValue) :
  64 < String.length s ->
  alookup (sha1_hex s) dv = Some d ->
  markDuplicateValues (VMapItem key (VString s)) dv
  = (VMapItem key (VString ("*" ++ sha1_hex s)), dv).
Proof.
  intros Hs Hold. cbn [markDuplicateValues].
  rewrite (bigEnough_long s Hs), Hold. reflexivity.
Qed.

(** In the map case a string that is not empty is hashed and its key
    rewritten, whatever its length. *)
Lemma markDuplicateValues_map_any_length (key s : string) :
  s <> "" ->
  markDuplicateValues (VMap [(key, VString s)]) []
  = (VMap [(key ++ "=" ++ sha1_hex s, VString s)],
     [(sha1_hex s, {| Hash := sha1_hex s; YamlKeyMarker := key |})]).
Proof.
  intros Hs. cbn [markDuplicateValues alookup adelete ainsert].
  rewrite String.eqb_refl. unfold nonEmpty.
  destruct (String.eqb_spec s ""); [contradiction|]. reflexivity.
Qed.



(** ** The two ways through the ops files *)

Lemma bind_Ok {A B} (r : result A) (k : A -> result B) (b : B) :
  r ≫= k = Ok b -> exists a, r = Ok a /\ k a = Ok b.
Proof. destruct r as [a|e|]; try discriminate. intros Hk. eauto. Qed.

Lemma wrapf_Ok {A} (r : result A) (msg : string) (a : A) :
  wrapf r msg = Ok a -> r = Ok a.
Proof. destruct r; try discriminate. intros [= <-]. reflexivity. Qed.


Lemma forM_cons {A B} (f : A -> result B) (a : A) (l : list A) :
  forM f (a :: l) = f a ≫= fun b => forM f l ≫= fun bs => Ok (b :: bs).
Proof. reflexivity. Qed.

Lemma foldM_cons {A B} (f : B -> A -> result B) (b : B) (a : A) (l : list A) :
  foldM f b (a :: l) = f b a ≫= fun b' => foldM f b' l.
Proof. reflexivity. Qed.

Section Paths.
Context {codec : Codec} {api : Api} {cluster : Cluster} {variables : Variables}.
Context {I : Type} {interpolator : Interpolator I}.

Lemma addAllOps_foldM bdpl namespace ops (i0 i : I) :
  Resolver.addAllOps bdpl namespace ops i0 = Ok i ->
  exists ds, forM (fetch namespace) ops = Ok ds /\ foldM AddOps i0 ds = Ok i.
Proof.
  revert i0. induction ops as [|op ops IH]; intros i0 Hrun;
    cbn [Resolver.addAllOps] in Hrun.
  - injection Hrun as <-. exists []. split; reflexivity.
  - apply bind_Ok in Hrun as (d & Hd & Hrun). apply wrapf_Ok in Hd.
    apply bind_Ok in Hrun as (i1 & Hi1 & Hrun). apply wrapf_Ok in Hi1.
    destruct (IH i1 Hrun) as (ds & Hds & Hfold).
    exists (d :: ds). split.
    + unfold fetch in *. rewrite forM_cons, Hd, Hds. reflexivity.
    + rewrite foldM_cons, Hi1. exact Hfold.
Qed.

Lemma interpolateEach_foldM bdpl namespace ops (doc out : string) :
  Resolver.interpolateEach bdpl namespace ops doc = Ok out ->
  exists ds,
    forM (fetch namespace) ops = Ok ds /\ foldM evaluateOne doc ds = Ok out.
Proof.
  revert doc. induction ops as [|op ops IH]; intros doc Hrun;
    cbn [Resolver.interpolateEach] in Hrun.
  - injection Hrun as <-. exists []. split; reflexivity.
  - apply bind_Ok in Hrun as (d & Hd & Hrun). apply wrapf_Ok in Hd.
    apply bind_Ok in Hrun as (j & Hj & Hrun). apply wrapf_Ok in Hj.
    apply bind_Ok in Hrun as (doc' & Hdoc' & Hrun). apply wrapf_Ok in Hdoc'.
    destruct (IH doc' Hrun) as (ds & Hds & Hfold).
    exists (d :: ds). split.
    + unfold fetch in *. rewrite forM_cons, Hd, Hds. reflexivity.
    + unfold evaluateOne in *. rewrite foldM_cons, Hj. cbn.
      rewrite Hdoc'. exact Hfold.
Qed.


End Paths.




(** * Further properties *)

(** ** Update blocks, again *)

Lemma propagateTo_again (global : option Update.t) (ig ig' : InstanceGroup.t) :
  propagateTo global ig = Ok ig' -> propagateTo global ig' = Ok ig'.
Proof.
  unfold propagateTo.
  destruct ig as [n s j l [[c w sr]|]]; cbn.
  - destruct global as [[gc gw gs]|]; cbn;
      destruct (String.eqb_spec c "") as [Hc|Hc];
      destruct (String.eqb_spec w "") as [Hw|Hw];
      destruct sr as [b|]; cbn; intros Hrun; try discriminate Hrun;
      injection Hrun as <-; cbn;
      repeat match goal with
        | |- context [String.eqb ?x ""] => destruct (String.eqb_spec x "")
        end;
      cbn; try reflexivity; try congruence;
      try (destruct gs; cbn; (reflexivity || congruence)).
  - intros [= <-]. cbn. destruct global as [[gc gw gs]|]; cbn; [|reflexivity].
    destruct (String.eqb_spec gc "") as [->|_];
      destruct (String.eqb_spec gw "") as [->|_];
      destruct gs; reflexivity.
Qed.

(** X1.  A second propagation changes nothing: when the propagation
    completes on a manifest, it completes on the manifest it leaves and
    leaves it as it is. *)
Theorem PropagateGlobalUpdateBlockToIGs_idempotent (m m' : Manifest.t) :
  PropagateGlobalUpdateBlockToIGs m = Ok m' ->
  PropagateGlobalUpdateBlockToIGs m' = Ok m'.
Proof.
  unfold PropagateGlobalUpdateBlockToIGs. intros Hrun.
  destruct (forM (propagateTo (Manifest.Update m)) (Manifest.InstanceGroups m))
    as [igs| |] eqn:Higs; try discriminate.
  cbn in Hrun. injection Hrun as <-. cbn.
  rewrite forM_id; [reflexivity|].
  apply Forall_lookup. intros i ig' Hi'.
  assert (Hlt : i < length (Manifest.InstanceGroups m)).
  { rewrite <- (forM_length _ _ _ Higs). eapply lookup_lt_Some, Hi'. }
  destruct (lookup_lt_is_Some_2 _ _ Hlt) as [ig Hi].
  destruct (forM_lookup _ _ _ Higs i ig Hi) as (ig'' & Hi'' & Hstep).
  assert (ig'' = ig') as -> by congruence.
  exact (propagateTo_again _ _ _ Hstep).
Qed.

Lemma PropagateGlobalUpdateBlockToIGs_idempotent_witness :
  exists m',
    PropagateGlobalUpdateBlockToIGs
      (webAndDb (Some serialOnly) (Some globalUpdate) []) = Ok m' /\
    PropagateGlobalUpdateBlockToIGs m' = Ok m'.
Proof.
  eexists. split; [vm_compute; reflexivity|].
  apply (PropagateGlobalUpdateBlockToIGs_idempotent
           (webAndDb (Some serialOnly) (Some globalUpdate) [])).
  vm_compute. reflexivity.
Defined.

(** ** Addons, again *)

Lemma addonJobsAppended_refl (ig : InstanceGroup.t) : addonJobsAppended ig ig.
Proof.
  repeat split. exists []. split; [symmetry; apply app_nil_r | constructor].
Qed.

Lemma addonJobsAppended_trans (a b c : InstanceGroup.t) :
  addonJobsAppended a b -> addonJobsAppended b c -> addonJobsAppended a c.
Proof.
  intros (Hn & Hs & Hl & Hu & x & Hx & Hax) (Hn' & Hs' & Hl' & Hu' & y & Hy & Hay).
  repeat split; try congruence.
  exists (x ++ y)%list. split.
  - rewrite Hy, Hx, app_assoc. reflexivity.
  - apply Forall_app. split; assumption.
Qed.

Lemma groupsExtended_refl (m : Manifest.t) : groupsExtended m m.
Proof.
  split; [reflexivity|].
  apply Forall2_same_length_lookup. split; [reflexivity|].
  intros i x y Hx Hy. assert (x = y) as -> by congruence.
  apply addonJobsAppended_refl.
Qed.

Lemma groupsExtended_trans (a b c : Manifest.t) :
  groupsExtended a b -> groupsExtended b c -> groupsExtended a c.
Proof.
  intros [Hab Fab] [Hbc Fbc]. split; [congruence|].
  revert Fbc. generalize (Manifest.InstanceGroups c).
  induction Fab as [|x y l k Hxy _ IH]; intros k' Fbc; inversion Fbc; subst.
  - constructor.
  - constructor; [eapply addonJobsAppended_trans; eassumption | apply IH; assumption].
Qed.

Section AddonsAgain.
Context {placement : AddOnPlacement}.

Lemma applyAddonToGroup_extends (addon : AddOn.t) (i : nat) (m : Manifest.t) :
  groupsExtended m (fst (applyAddonToGroup addon i m)).
Proof.
  unfold applyAddonToGroup.
  destruct (Manifest.InstanceGroups m !! i) as [ig|] eqn:Hi;
    [|apply groupsExtended_refl].
  destruct (addOnPlacementMatch m "inclusion" ig (AddOn.Include addon))
    as [include|e|]; try apply groupsExtended_refl.
  destruct (addOnPlacementMatch m "exclusion" ig (AddOn.Exclude addon))
    as [exclude|e|]; try apply groupsExtended_refl.
  destruct (exclude || negb include); [apply groupsExtended_refl|].
  split; [reflexivity|]. cbn.
  rewrite <- (list_insert_id _ _ _ Hi) at 1.
  apply Forall2_insert.
  - apply Forall2_same_length_lookup. split; [reflexivity|].
    intros j x y Hx Hy. assert (x = y) as -> by congruence.
    apply addonJobsAppended_refl.
  - repeat split. eexists. split; [reflexivity | apply addedJob_isAddon].
Qed.

Lemma applyAddonToGroups_extends (addon : AddOn.t) (indices : list nat)
  (m : Manifest.t) :
  groupsExtended m (fst (applyAddonToGroups addon indices m)).
Proof.
  revert m. induction indices as [|i rest IH]; intros m;
    [apply groupsExtended_refl|].
  cbn [applyAddonToGroups].
  pose proof (applyAddonToGroup_extends addon i m) as Hstep.
  destruct (applyAddonToGroup addon i m) as [m' [[]|e|]]; cbn in *;
    try exact Hstep.
  eapply groupsExtended_trans; [exact Hstep | apply IH].
Qed.

Lemma applyAddons_extends (addons : list AddOn.t) (m : Manifest.t) :
  groupsExtended m (fst (applyAddons addons m)).
Proof.
  revert m. induction addons as [|addon rest IH]; intros m;
    [apply groupsExtended_refl|].
  cbn [applyAddons].
  assert (Hstep : groupsExtended m (fst (applyAddon addon m))).
  { unfold applyAddon.
    destruct (String.eqb (AddOn.Name addon) BoshDNSAddOnName);
      [apply groupsExtended_refl | apply applyAddonToGroups_extends]. }
  destruct (applyAddon addon m) as [m' [[]|e|]]; cbn in *; try exact Hstep.
  eapply groupsExtended_trans; [exact Hstep | apply IH].
Qed.

(** X2.  Whatever [ApplyAddons] returns, it has only appended jobs marked
    as addon jobs: the instance groups are as many as before, each keeps
    its name, stemcell, labels and update block and its jobs as a prefix
    of its jobs after the call, and but for the guard the rest of the
    manifest is as it was. *)
Theorem ApplyAddons_only_appends_addon_jobs (m : Manifest.t) :
  Forall2 addonJobsAppended (Manifest.InstanceGroups m)
    (Manifest.InstanceGroups (fst (ApplyAddons m))) /\
  Manifest.withAddOnsApplied false
    (Manifest.withInstanceGroups [] (fst (ApplyAddons m)))
  = Manifest.withAddOnsApplied false (Manifest.withInstanceGroups [] m).
Proof.
  unfold ApplyAddons. destruct (Manifest.AddOnsApplied m).
  - cbn. split; [apply groupsExtended_refl | reflexivity].
  - destruct (applyAddons_extends (Manifest.AddOns m) m) as [Hrest Hgroups].
    destruct (applyAddons (Manifest.AddOns m) m) as [m' [[]|e|]]; cbn in *;
      (split; [exact Hgroups|]);
      change (Manifest.withAddOnsApplied false (Manifest.withInstanceGroups [] m'))
        with (Manifest.withAddOnsApplied false
                (Manifest.withInstanceGroups []
                   (Manifest.withInstanceGroups [] m')));
      try (rewrite Hrest; reflexivity).
    change (Manifest.withAddOnsApplied false
              (Manifest.withInstanceGroups []
                 (Manifest.withAddOnsApplied true m')))
      with (Manifest.withAddOnsApplied false
              (Manifest.withInstanceGroups []
                 (Manifest.withInstanceGroups [] m'))).
    rewrite Hrest. reflexivity.
Qed.


(** X4.  Addons named [bosh-dns] are passed over: when the manifest has no
    other addon and the guard is unset, the call returns nil and sets the
    guard, and nothing else changes, whatever the placement rules say. *)
Theorem ApplyAddons_only_bosh_dns (m : Manifest.t) :
  Manifest.AddOnsApplied m = false ->
  Forall (fun addon => AddOn.Name addon = BoshDNSAddOnName) (Manifest.AddOns m) ->
  ApplyAddons m = (Manifest.withAddOnsApplied true m, Ok ()).
Proof.
  intros Hflag Hdns. unfold ApplyAddons. rewrite Hflag.
  assert (Hloop : applyAddons (Manifest.AddOns m) m = (m, Ok ())).
  { generalize dependent (Manifest.AddOns m). intros addons Hdns.
    induction Hdns as [|addon rest Hname _ IH]; [reflexivity|].
    cbn [applyAddons]. unfold applyAddon. rewrite Hname. exact IH. }
  rewrite Hloop. reflexivity.
Qed.
End AddonsAgain.


Lemma ApplyAddons_only_bosh_dns_witness :
  ApplyAddons (placement := placementByGroupName) boshDNSOnly
  = (Manifest.withAddOnsApplied true boshDNSOnly, Ok ()).
Proof.
  apply (ApplyAddons_only_bosh_dns (placement := placementByGroupName)).
  - reflexivity.
  - repeat constructor.
Defined.

(** ** Serialization, again *)

Lemma alookup_ainsert {A} (k k' : string) (a : A) (m : list (string * A)) :
  alookup k (ainsert k' a m) = if String.eqb k k' then Some a else alookup k m.
Proof.
  induction m as [|[k0 a0] m IH]; cbn.
  - destruct (String.eqb k k'); reflexivity.
  - destruct (String.eqb_spec k' k0) as [->|Hne]; cbn.
    + destruct (String.eqb_spec k k0); reflexivity.
    + rewrite IH. destruct (String.eqb_spec k k0) as [->|]; [|reflexivity].
      destruct (String.eqb_spec k0 k'); [congruence | reflexivity].
Qed.

(** X5.  The first long string with a given content is the anchor and a
    later one with the same content its alias: of two items of a sequence
    that hold the same string of more than 64 bytes, the first keeps the
    string under the key [key=hash], the second keeps its key and holds
    [*hash], and the table holds the hash with the first key. *)
Theorem markDuplicateValues_anchor_then_alias (key1 key2 s : string) :
  64 < String.length s ->
  markDuplicateValues
    (VSlice [VMapItem key1 (VString s); VMapItem key2 (VString s)]) []
  = (VSlice [VMapItem (key1 ++ "=" ++ sha1_hex s) (VString s);
             VMapItem key2 (VString ("*" ++ sha1_hex s))],
     [(sha1_hex s, {| Hash := sha1_hex s; YamlKeyMarker := key1 |})]).
Proof.
  intros Hs. cbn [markDuplicateValues alookup ainsert].
  rewrite (bigEnough_long s Hs). cbn [alookup ainsert].
  rewrite String.eqb_refl. reflexivity.
Qed.

Lemma markDuplicateValues_anchor_then_alias_witness :
  markDuplicateValues
    (VSlice [VMapItem "ca" (VString longValue);
             VMapItem "cert" (VString longValue)]) []
  = (VSlice [VMapItem ("ca" ++ "=" ++ sha1_hex longValue) (VString longValue);
             VMapItem "cert" (VString ("*" ++ sha1_hex longValue))],
     [(sha1_hex longValue,
       {| Hash := sha1_hex longValue; YamlKeyMarker := "ca" |})]).
Proof.
  apply (markDuplicateValues_anchor_then_alias "ca" "cert" longValue).
  vm_compute. lia.
Defined.

Lemma keyedByHash_ainsert (h marker : string) (dv : duplicates) :
  keyedByHash dv ->
  keyedByHash (ainsert h {| Hash := h; YamlKeyMarker := marker |} dv).
Proof.
  intros Hdv h' d. rewrite alookup_ainsert.
  destruct (String.eqb_spec h' h) as [->|_]; [|apply Hdv].
  intros [= <-]. reflexivity.
Qed.

Lemma ainsert_keeps (h h' : string) (d d' : duplicateYamlValue) (dv : duplicates) :
  alookup h' dv = None -> alookup h dv = Some d ->
  alookup h (ainsert h' d' dv) = Some d.
Proof.
  intros Hnew Hold. rewrite alookup_ainsert.
  destruct (String.eqb_spec h h'); [congruence | exact Hold].
Qed.

(** X6.  The table only grows, and the first anchor stays: after a walk
    from a table in which each entry stands under its own hash, each entry
    still does, and an entry that was in the table before the walk is in
    it unchanged afterwards. *)
Theorem markDuplicateValues_table (t : node) :
  forall dv,
    keyedByHash dv ->
    keyedByHash (snd (markDuplicateValues t dv)) /\
    forall h d, alookup h dv = Some d ->
      alookup h (snd (markDuplicateValues t dv)) = Some d.
Proof.
  induction t as [ |x|s|l IHl|key val IHval|m IHm] using node_ind';
    intros dv Hdv; try (split; [exact Hdv | auto]).
  - (* a slice *)
    cbn [markDuplicateValues].
    enough (Hl : forall dv, keyedByHash dv ->
      let r :=
        (fix elems (l : list node) (dv : duplicates) : list node * duplicates :=
           match l with
           | [] => ([], dv)
           | x :: xs =>
               let '(x', dv1) := markDuplicateValues x dv in
               let '(xs', dv2) := elems xs dv1 in
               (x' :: xs', dv2)
           end) l dv in
      keyedByHash (snd r) /\
      forall h d, alookup h dv = Some d -> alookup h (snd r) = Some d).
    { specialize (Hl dv Hdv). cbv zeta in Hl.
      destruct ((fix elems (l : list node) (dv : duplicates) := _) l dv).
      exact Hl. }
    clear dv Hdv. induction l as [|x l IH]; intros dv Hdv; cbv zeta.
    + split; [exact Hdv | auto].
    + apply Forall_cons in IHl as [IHx IHl].
      destruct (IHx dv Hdv) as [Hx Hkeep].
      destruct (markDuplicateValues x dv) as [x' dv1]. cbn [snd] in *.
      specialize (IH IHl dv1 Hx). cbv zeta in IH.
      destruct ((fix elems (l : list node) (dv : duplicates) := _) l dv1)
        as [xs' dv2]. cbn [snd] in *.
      destruct IH as [Hxs Hkeep']. split; [exact Hxs | auto].
  - (* an item *)
    assert (Hrec : forall v, v = val ->
      keyedByHash (snd (let '(val', dv') := markDuplicateValues v dv in
                        (VMapItem key val', dv'))) /\
      forall h d, alookup h dv = Some d ->
        alookup h (snd (let '(val', dv') := markDuplicateValues v dv in
                        (VMapItem key val', dv'))) = Some d).
    { intros v ->. destruct (IHval dv Hdv) as [H1 H2].
      destruct (markDuplicateValues val dv). exact (conj H1 H2). }
    destruct val as [ |x|s|l|key' val'|m]; try exact (Hrec _ eq_refl).
    cbn [markDuplicateValues]. destruct (bigEnough s); [|split; [exact Hdv | auto]].
    destruct (alookup (sha1_hex s) dv) eqn:Hlook; cbn [snd].
    + split; [exact Hdv | auto].
    + split; [apply keyedByHash_ainsert, Hdv|].
      intros h d Hh. apply ainsert_keeps; assumption.
  - (* a Go map *)
    cbn [markDuplicateValues].
    enough (Hm : forall ks, Forall (fun kv => forall dv, keyedByHash dv ->
                  keyedByHash (snd (markDuplicateValues (snd kv) dv)) /\
                  forall h d, alookup h dv = Some d ->
                    alookup h (snd (markDuplicateValues (snd kv) dv)) = Some d) ks ->
      forall cur dv, keyedByHash dv ->
      let r :=
        (fix keys (ks cur : list (string * node)) (dv : duplicates)
           : list (string * node) * duplicates :=
           match ks with
           | [] => (cur, dv)
           | (k, v0) :: ks' =>
               match alookup k cur with
               | Some (VString s) =>
                   if nonEmpty s then
                     let sha1 := sha1_hex s in
                     match alookup sha1 dv with
                     | Some _ =>
                         keys ks' (ainsert k (VString ("*" ++ sha1)) cur) dv
                     | None =>
                         keys ks'
                           (ainsert (k ++ "=" ++ sha1) (VString s) (adelete k cur))
                           (ainsert sha1 {| Hash := sha1; YamlKeyMarker := k |} dv)
                     end
                   else keys ks' cur dv
               | Some _ =>
                   let '(v', dv1) := markDuplicateValues v0 dv in
                   keys ks' (ainsert k v' cur) dv1
               | None => keys ks' cur dv
               end
           end) ks cur dv in
      keyedByHash (snd r) /\
      forall h d, alookup h dv = Some d -> alookup h (snd r) = Some d).
    { specialize (Hm m IHm m dv Hdv). cbv zeta in Hm.
      destruct ((fix keys (ks cur : list (string * node)) (dv : duplicates) := _)
                  m m dv).
      exact Hm. }
    clear dv Hdv. intros ks Hks.
    induction Hks as [|[k v0] ks Hv0 _ IH]; intros cur dv Hdv; cbv zeta.
    + split; [exact Hdv | auto].
    + cbn [snd] in Hv0.
      assert (Hgo : forall v, v = v0 ->
        let r := let '(v', dv1) := markDuplicateValues v dv in
                 (fix keys (ks cur : list (string * node)) (dv : duplicates)
                    : list (string * node) * duplicates :=
                    match ks with
                    | [] => (cur, dv)
                    | (k, v0) :: ks' =>
                        match alookup k cur with
                        | Some (VString s) =>
                            if nonEmpty s then
                              let sha1 := sha1_hex s in
                              match alookup sha1 dv with
                              | Some _ =>
                                  keys ks' (ainsert k (VString ("*" ++ sha1)) cur) dv
                              | None =>
                                  keys ks'
                                    (ainsert (k ++ "=" ++ sha1) (VString s)
                                       (adelete k cur))
                                    (ainsert sha1
                                       {| Hash := sha1; YamlKeyMarker := k |} dv)
                              end
                            else keys ks' cur dv
                        | Some _ =>
                            let '(v', dv1) := markDuplicateValues v0 dv in
                            keys ks' (ainsert k v' cur) dv1
                        | None => keys ks' cur dv
                        end
                    end) ks (ainsert k v' cur) dv1 in
        keyedByHash (snd r) /\
        forall h d, alookup h dv = Some d -> alookup h (snd r) = Some d).
      { intros v ->. cbv zeta. destruct (Hv0 dv Hdv) as [H1 H2].
        destruct (markDuplicateValues v0 dv) as [v' dv1]. cbn [snd] in *.
        destruct (IH (ainsert k v' cur) dv1 H1) as [H3 H4].
        split; [exact H3 | auto]. }
      destruct (alookup k cur) as [[ |x|s|l|key' val'|m']|];
        try exact (Hgo _ eq_refl); try exact (IH cur dv Hdv).
      destruct (nonEmpty s); [|exact (IH cur dv Hdv)].
      cbv zeta. destruct (alookup (sha1_hex s) dv) eqn:Hlook.
      * exact (IH _ dv Hdv).
      * destruct (IH (ainsert (k ++ "=" ++ sha1_hex s) (VString s) (adelete k cur))
                    _ (keyedByHash_ainsert (sha1_hex s) k dv Hdv)) as [H1 H2].
        split; [exact H1|]. intros h d Hh. apply H2, ainsert_keeps; assumption.
Qed.

Lemma markDuplicateValues_table_witness :
  keyedByHash
    (snd (markDuplicateValues
            (VSlice [VMapItem "ca" (VString longValue);
                     VMapItem "cert" (VString longValue)]) [])) /\
  alookup longValueHash
    (snd (markDuplicateValues
            (VMapItem "key" (VString longValue))
            [(longValueHash,
              {| Hash := longValueHash; YamlKeyMarker := "ca" |})]))
  = Some {| Hash := longValueHash; YamlKeyMarker := "ca" |}.
Proof.
  split.
  - apply (markDuplicateValues_table _ []). intros h d [=].
  - apply (markDuplicateValues_table (VMapItem "key" (VString longValue))).
    + intros h d. cbn [alookup].
      destruct (String.eqb_spec h longValueHash) as [->|_]; [|discriminate].
      intros [= <-]. reflexivity.
    + reflexivity.
Defined.

(** X7.  A document without a long string goes through [Marshal] as the
    second encoder writes it: when no item of the decoded tree holds a
    string of more than 64 bytes, and the tree has no Go map, [Marshal]
    returns what [goyaml.Marshal] returns for that tree, with no anchor
    and no alias put in. *)
Theorem Marshal_short_document {codec : Codec} (m : Manifest.t)
  (text : string) (tree : node) :
  yaml_Marshal m = Ok text ->
  goyaml_Unmarshal text = Ok tree ->
  shortItems tree = true ->
  Marshal m = goyaml_Marshal tree.
Proof.
  intros Htext Htree Hshort. unfold Marshal.
  rewrite Htext. cbn. rewrite Htree. cbn.
  rewrite (markDuplicateValues_shortItems tree Hshort []).
  destruct (goyaml_Marshal tree); reflexivity.
Qed.

Lemma Marshal_short_document_witness :
  Marshal (codec := replayCodec fooDeclaredText fooDeclaredTree) fooDeclared
  = Ok fooDeclaredText.
Proof.
  apply (Marshal_short_document
           (codec := replayCodec fooDeclaredText fooDeclaredTree)
           fooDeclared fooDeclaredText fooDeclaredTree); reflexivity.
Defined.

Lemma HasPrefix_cons (c p : ascii) (s prefix : string) :
  HasPrefix (String c s) (String p prefix) = Ascii.eqb p c && HasPrefix s prefix.
Proof. reflexivity. Qed.

Lemma HasPrefix_app (old rest : string) : HasPrefix (old ++ rest) old = true.
Proof.
  induction old as [|c old IH]; [destruct rest; reflexivity|].
  rewrite append_cons, HasPrefix_cons, Ascii.eqb_refl, IH. reflexivity.
Qed.

Lemma HasPrefix_true (s old : string) :
  HasPrefix s old = true -> exists rest, s = old ++ rest.
Proof.
  revert s. induction old as [|c old IH]; intros s Hs.
  - exists s. reflexivity.
  - destruct s as [|c' s]; [discriminate|]. rewrite HasPrefix_cons in Hs.
    apply andb_true_iff in Hs as [Hc Hs]. apply Ascii.eqb_eq in Hc as <-.
    destruct (IH s Hs) as [rest ->]. exists rest. reflexivity.
Qed.

Lemma replaceFrom_skip (a rest old new : string) :
  replaceFrom (String.length a) (a ++ rest) old new = replaceFrom 0 rest old new.
Proof. induction a as [|c a IH]; [reflexivity | exact IH]. Qed.

Lemma ReplaceAll_head (c : ascii) (old rest new : string) :
  ReplaceAll (String c old ++ rest) (String c old) new
  = new ++ ReplaceAll rest (String c old) new.
Proof.
  unfold ReplaceAll.
  change (String c old ++ rest) with (String c (old ++ rest)).
  cbn [replaceFrom].
  change (String c (old ++ rest)) with (String c old ++ rest).
  rewrite HasPrefix_app.
  replace (String.length (String c old) - 1) with (String.length old)
    by (cbn [String.length]; lia).
  rewrite replaceFrom_skip. reflexivity.
Qed.

Lemma absent_tail (old : string) (c : ascii) (s : string) :
  absent old (String c s) -> absent old s.
Proof. intros Hs a b ->. apply (Hs (String c a) b). reflexivity. Qed.

Lemma ReplaceAll_absent (s old new : string) :
  absent old s -> ReplaceAll s old new = s.
Proof.
  unfold ReplaceAll. induction s as [|c s IH]; intros Hs; [reflexivity|].
  cbn [replaceFrom].
  destruct (HasPrefix (String c s) old) eqn:Hp.
  - apply HasPrefix_true in Hp as [rest Hrest]. exfalso.
    apply (Hs "" rest). exact Hrest.
  - rewrite (IH (absent_tail _ _ _ Hs)). reflexivity.
Qed.

Lemma append_assoc (a b c : string) : (a ++ b) ++ c = a ++ b ++ c.
Proof.
  induction a as [|x a IH]; [reflexivity|].
  rewrite !append_cons, IH. reflexivity.
Qed.

Lemma append_length (a b : string) :
  String.length (a ++ b) = String.length a + String.length b.
Proof.
  induction a as [|x a IH]; [reflexivity|].
  rewrite append_cons. cbn [String.length]. rewrite IH. reflexivity.
Qed.

(** X8.  The marker of an anchor becomes the anchor: on a text that
    begins with [key=hash: ], in which the alias [*hash] in quotes stands
    nowhere and the marker nowhere else, the replacements for the entry of
    that key and hash give the text with [key: &hash ] in its place. *)
Theorem unquoteAnchor_marker (v : duplicateYamlValue) (rest : string) :
  absent ("'*" ++ Hash v ++ "'")
    (YamlKeyMarker v ++ "=" ++ Hash v ++ ": " ++ rest) ->
  absent (YamlKeyMarker v ++ "=" ++ Hash v ++ ": ") rest ->
  unquoteAnchor (YamlKeyMarker v ++ "=" ++ Hash v ++ ": " ++ rest) v
  = YamlKeyMarker v ++ ": &" ++ Hash v ++ " " ++ rest.
Proof.
  intros Halias Hmarker. unfold unquoteAnchor.
  rewrite (ReplaceAll_absent _ _ _ Halias).
  assert (Hsplit : YamlKeyMarker v ++ "=" ++ Hash v ++ ": " ++ rest
                   = (YamlKeyMarker v ++ "=" ++ Hash v ++ ": ") ++ rest).
  { rewrite !append_assoc. reflexivity. }
  rewrite Hsplit.
  destruct (YamlKeyMarker v ++ "=" ++ Hash v ++ ": ") as [|c old] eqn:Hold.
  { exfalso. apply (f_equal String.length) in Hold.
    rewrite !append_length in Hold. cbn in Hold. lia. }
  rewrite ReplaceAll_head, (ReplaceAll_absent _ _ _ Hmarker).
  rewrite !append_assoc. reflexivity.
Qed.

(** X9.  A text in which neither the quoted alias nor the marker of an
    entry stands is left as it is by the replacements for that entry. *)
Theorem unquoteAnchor_absent (v : duplicateYamlValue) (text : string) :
  absent ("'*" ++ Hash v ++ "'") text ->
  absent (YamlKeyMarker v ++ "=" ++ Hash v ++ ": ") text ->
  unquoteAnchor text v = text.
Proof.
  intros Halias Hmarker. unfold unquoteAnchor.
  rewrite (ReplaceAll_absent _ _ _ Halias). apply ReplaceAll_absent, Hmarker.
Qed.

Lemma occurs_absent (old s : string) : occurs old s = false -> absent old s.
Proof.
  intros Hocc a b ->. induction a as [|c a IH].
  - change ("" ++ old ++ b) with (old ++ b) in Hocc.
    destruct (old ++ b) eqn:Hob; cbn [occurs] in Hocc;
      rewrite <- Hob, HasPrefix_app in Hocc; discriminate.
  - rewrite append_cons in Hocc. cbn [occurs] in Hocc.
    apply orb_false_iff in Hocc as [_ Hocc]. exact (IH Hocc).
Qed.

Lemma unquoteAnchor_marker_witness :
  unquoteAnchor ("ca=" ++ longValueHash ++ ": " ++ longValue)
    {| Hash := longValueHash; YamlKeyMarker := "ca" |}
  = "ca: &" ++ longValueHash ++ " " ++ longValue.
Proof.
  apply (unquoteAnchor_marker
           {| Hash := longValueHash; YamlKeyMarker := "ca" |} longValue);
    apply occurs_absent; vm_compute; reflexivity.
Defined.

Lemma unquoteAnchor_absent_witness :
  unquoteAnchor fooDeclaredText
    {| Hash := longValueHash; YamlKeyMarker := "ca" |}
  = fooDeclaredText.
Proof.
  apply unquoteAnchor_absent; apply occurs_absent; vm_compute; reflexivity.
Defined.

(** ** Variable discovery, again *)



Lemma span_fst_all (p : ascii -> bool) (s : string) :
  allChars p (fst (span p s)) = true.
Proof.
  induction s as [|c s IH]; [reflexivity|].
  rewrite span_cons. destruct (p c) eqn:Hc; [|reflexivity].
  destruct (span p s) as [a b]. cbn [fst allChars] in *.
  rewrite Hc, IH. reflexivity.
Qed.

Lemma span_fst_no_slash (p : ascii -> bool) (s : string) :
  containsSlash s = false -> containsSlash (fst (span p s)) = false.
Proof.
  induction s as [|c s IH]; [reflexivity|].
  rewrite containsSlash_cons, span_cons. intros [Hc Hs]%orb_false_iff.
  destruct (p c); [|reflexivity].
  specialize (IH Hs). destruct (span p s) as [a b]. cbn [fst] in *.
  rewrite containsSlash_cons, Hc, IH. reflexivity.
Qed.

(** X11.  The name kept for a placeholder without a slash holds neither a
    dot nor a slash: it is a run of the placeholder between dots. *)
Theorem variableName_plain (match1 : string) :
  SlashedVariable match1 = false ->
  allChars notDot (variableName match1) = true /\
  SlashedVariable (variableName match1) = false.
Proof.
  unfold variableName, SlashedVariable. intros Hslash. rewrite Hslash.
  cbn [negb]. induction match1 as [|c s IH]; [split; reflexivity|].
  rewrite containsSlash_cons in Hslash.
  apply orb_false_iff in Hslash as [Hc Hs].
  cbn [fieldRegexp_FindString]. destruct (notDot c); [|exact (IH Hs)].
  split; [apply span_fst_all|].
  apply span_fst_no_slash. rewrite containsSlash_cons, Hc, Hs. reflexivity.
Qed.

Lemma variableName_plain_witness :
  allChars notDot (variableName "ca.private_key") = true /\
  SlashedVariable (variableName "ca.private_key") = false.
Proof. apply variableName_plain. reflexivity. Defined.






(** ** Variables of the user *)

Lemma foldM_app {A B} (f : B -> A -> result B) (b : B) (l1 l2 : list A) :
  foldM f b (l1 ++ l2) = foldM f b l1 ≫= fun b' => foldM f b' l2.
Proof.
  revert b. induction l1 as [|a l1 IH]; intros b.
  - cbn. destruct (foldM f b l2); reflexivity.
  - change ((a :: l1) ++ l2)%list with (a :: (l1 ++ l2))%list.
    rewrite !foldM_cons.
    destruct (f b a) as [b'| |]; cbn; [apply IH | reflexivity | reflexivity].
Qed.

Lemma mergeDatum_field (staticVar : node) (k v : string) :
  k <> "password" -> mergeDatum staticVar (k, v) = MergeStaticVar staticVar k v.
Proof.
  intros Hk. unfold mergeDatum. cbn [fst snd].
  destruct (String.eqb_spec k "password"); [contradiction | reflexivity].
Qed.

Lemma staticVarOf_fields_from (secretData : list (string * string))
  (staticVarMap : list (string * node)) :
  noPassword secretData ->
  foldM mergeDatum (VMap staticVarMap) secretData
  = Ok (VMap (foldl (fun m kv => ainsert (fst kv) (VString (snd kv)) m)
                staticVarMap secretData)).
Proof.
  intros Hno. revert staticVarMap.
  induction Hno as [|[k v] l Hk _ IH]; intros staticVarMap; [reflexivity|].
  rewrite foldM_cons, (mergeDatum_field _ k v Hk). apply IH.
Qed.

Lemma staticVarOf_fields (secretData : list (string * string)) :
  noPassword secretData ->
  staticVarOf secretData
  = Ok (match secretData with
        | [] => VNil
        | _ => VMap (foldl (fun m kv => ainsert (fst kv) (VString (snd kv)) m)
                       [] secretData)
        end).
Proof.
  intros Hno. unfold staticVarOf.
  destruct Hno as [|[k v] l Hk Hl]; [reflexivity|].
  rewrite foldM_cons, (mergeDatum_field _ k v Hk).
  apply (staticVarOf_fields_from l [(k, VString v)] Hl).
Qed.

(** X13.  A secret with a datum [password] next to other data gives the
    variable a value only when the loop meets [password] last: then the
    value is the password alone, the other data being dropped; when a datum
    is met after [password] the merge faults on the string. *)
Theorem staticVarOf_password (before after : list (string * string))
  (password : string) :
  noPassword before -> noPassword after ->
  staticVarOf (before ++ ("password", password) :: after)%list
  = match after with
    | [] => Ok (VString password)
    | _ => Panic
    end.
Proof.
  intros Hbefore Hafter. unfold staticVarOf.
  rewrite foldM_app.
  pose proof (staticVarOf_fields before Hbefore) as Hrun.
  unfold staticVarOf in Hrun. rewrite Hrun.
  cbn [mbind result_bind rbind]. rewrite foldM_cons.
  change (mergeDatum _ ("password", password)) with (Ok (VString password)).
  cbn [mbind result_bind rbind].
  destruct Hafter as [|[k v] l Hk _]; [reflexivity|].
  rewrite foldM_cons, (mergeDatum_field _ k v Hk). reflexivity.
Qed.

Lemma staticVarOf_password_witness :
  staticVarOf ([("ca", "-----BEGIN")] ++ [("password", "secret")])%list =
    Ok (VString "secret") /\
  staticVarOf ([] ++ ("password", "secret") :: [("ca", "-----BEGIN")])%list
  = Panic.
Proof.
  split.
  - apply (staticVarOf_password [("ca", "-----BEGIN")] [] "secret");
      repeat constructor; discriminate.
  - apply (staticVarOf_password [] [("ca", "-----BEGIN")] "secret");
      repeat constructor; discriminate.
Defined.

Lemma alookup_foldl_ainsert (l : list (string * string))
  (m : list (string * node)) (k v : string) :
  NoDup (fst <$> l) -> (k, v) ∈ l ->
  alookup k (foldl (fun m kv => ainsert (fst kv) (VString (snd kv)) m) m l)
  = Some (VString v).
Proof.
  revert m. induction l as [|[k0 v0] l IH]; intros m Hnd Hin; [inversion Hin|].
  cbn [fmap list_fmap fst] in Hnd. apply NoDup_cons in Hnd as [Hk0 Hnd].
  cbn [foldl fst snd].
  apply elem_of_cons in Hin as [[= -> ->]|Hin]; [|apply IH; assumption].
  clear IH. revert m. induction l as [|[k1 v1] l IH]; intros m.
  - cbn. rewrite alookup_ainsert, String.eqb_refl. reflexivity.
  - cbn [foldl fst snd]. cbn [fmap list_fmap fst] in Hk0, Hnd.
    apply not_elem_of_cons in Hk0 as [Hne Hk0].
    apply NoDup_cons in Hnd as [_ Hnd].
    specialize (IH Hk0 Hnd).
    assert (Hswap : forall m',
      alookup k0 m' = Some (VString v0) ->
      alookup k0 (foldl (fun m kv => ainsert (fst kv) (VString (snd kv)) m) m' l)
      = Some (VString v0)).
    { clear IH. revert Hk0. clear. induction l as [|[k2 v2] l IH];
        intros Hk0 m' Hm'; [exact Hm'|].
      cbn [foldl fst snd]. cbn [fmap list_fmap fst] in Hk0.
      apply not_elem_of_cons in Hk0 as [Hne Hk0]. apply IH; [exact Hk0|].
      rewrite alookup_ainsert.
      destruct (String.eqb_spec k0 k2); [contradiction | exact Hm']. }
    apply Hswap. rewrite !alookup_ainsert, String.eqb_refl.
    destruct (String.eqb_spec k0 k1); [contradiction | reflexivity].
Qed.

(** X14.  A secret without a datum [password] gives the variable a map
    with each datum under its name, in whatever order the loop meets
    them. *)
Theorem staticVarOf_map (secretData : list (string * string)) :
  secretData <> [] -> noPassword secretData -> NoDup (fst <$> secretData) ->
  exists staticVarMap,
    staticVarOf secretData = Ok (VMap staticVarMap) /\
    forall k v, (k, v) ∈ secretData ->
      alookup k staticVarMap = Some (VString v).
Proof.
  intros Hne Hno Hnd. rewrite (staticVarOf_fields secretData Hno).
  destruct secretData as [|kv l]; [contradiction|].
  eexists. split; [reflexivity|].
  intros k v Hin. apply alookup_foldl_ainsert; assumption.
Qed.

Lemma staticVarOf_map_witness :
  exists staticVarMap,
    staticVarOf [("certificate", "cert"); ("private_key", "pem")]
    = Ok (VMap staticVarMap) /\
    alookup "private_key" staticVarMap = Some (VString "pem").
Proof.
  destruct (staticVarOf_map [("certificate", "cert"); ("private_key", "pem")])
    as (staticVarMap & Hrun & Hall).
  - discriminate.
  - repeat constructor; discriminate.
  - cbn. apply NoDup_cons. split; [|apply NoDup_singleton].
    intros Hin. apply list_elem_of_singleton in Hin. discriminate.
  - exists staticVarMap. split; [exact Hrun|]. apply Hall.
    apply list_elem_of_further, list_elem_of_here.
Defined.

(** ** The resolver, again *)



Section SecretRefs.
Context {codec : Codec} {api : Api}.









End SecretRefs.


Section ShortPaths.
Context {codec : Codec} {api : Api} {cluster : Cluster} {variables : Variables}.
Context {I : Type} {interpolator : Interpolator I}.

End ShortPaths.


(** ** Release images and labels *)



Lemma forM_Forall2 {A B} (f : A -> result B) (l : list A) (l' : list B) :
  forM f l = Ok l' -> Forall2 (fun a b => f a = Ok b) l l'.
Proof.
  revert l'. induction l as [|a l IH]; intros l' Hrun.
  - injection Hrun as <-. constructor.
  - rewrite forM_cons in Hrun.
    apply bind_Ok in Hrun as (b & Hb & Hrun).
    apply bind_Ok in Hrun as (bs & Hbs & Hrun). injection Hrun as <-.
    constructor; [exact Hb | exact (IH bs Hbs)].
Qed.

Lemma foldM_invariant {A B} (f : B -> A -> result B) (P : B -> Prop)
  (l : list A) :
  (forall b a b', a ∈ l -> f b a = Ok b' -> P b -> P b') ->
  forall b b', P b -> foldM f b l = Ok b' -> P b'.
Proof.
  induction l as [|a l IH]; intros Hstep b b' Hb Hrun.
  - injection Hrun as <-. exact Hb.
  - rewrite foldM_cons in Hrun. apply bind_Ok in Hrun as (b1 & Hb1 & Hrun).
    apply (IH (fun b a b' Ha => Hstep b a b' (list_elem_of_further _ _ _ Ha))
             b1 b'); [|exact Hrun].
    exact (Hstep b a b1 (list_elem_of_here _ _) Hb1 Hb).
Qed.

Lemma foldM_establishes {A B} (f : B -> A -> result B) (Q : B -> Prop)
  (l : list A) (a : A) :
  a ∈ l ->
  (forall b b', f b a = Ok b' -> Q b') ->
  (forall b x b', f b x = Ok b' -> Q b -> Q b') ->
  forall b b', foldM f b l = Ok b' -> Q b'.
Proof.
  intros Hin Hset Hkeep. induction l as [|x l IH]; [inversion Hin|].
  intros b b' Hrun. rewrite foldM_cons in Hrun.
  apply bind_Ok in Hrun as (b1 & Hb1 & Hrun).
  apply elem_of_cons in Hin as [<-|Hin].
  - apply (foldM_invariant f Q l (fun b x b' _ => Hkeep b x b') b1 b');
      [exact (Hset b b1 Hb1) | exact Hrun].
  - exact (IH Hin b1 b' Hrun).
Qed.

Lemma releaseLabel_other (igName : string) (stemcell : option Stemcell.t)
  (job : Job.t) (labels labels' : option (gmap string string))
  (release : Release.t) (k : string) :
  releaseLabel igName stemcell job labels release = Ok labels' ->
  k <> versionLabel job ->
  labelsOf labels' !! k = labelsOf labels !! k.
Proof.
  unfold releaseLabel, versionLabel. intros Hrun Hk.
  destruct (String.eqb (Release.Name release) (Job.Release job));
    [|injection Hrun as <-; reflexivity].
  apply bind_Ok in Hrun as (v & _ & Hrun). injection Hrun as <-.
  unfold labelsOf. cbn [default]. apply lookup_insert_ne. congruence.
Qed.

Lemma releaseLabel_keeps (igName : string) (stemcell : option Stemcell.t)
  (job : Job.t) (labels labels' : option (gmap string string))
  (release : Release.t) (k : string) :
  releaseLabel igName stemcell job labels release = Ok labels' ->
  is_Some (labelsOf labels !! k) -> is_Some (labelsOf labels' !! k).
Proof.
  unfold releaseLabel. intros Hrun Hk.
  destruct (String.eqb (Release.Name release) (Job.Release job));
    [|injection Hrun as <-; exact Hk].
  apply bind_Ok in Hrun as (v & _ & Hrun). injection Hrun as <-.
  change (labelsOf (Some ?x)) with x.
  rewrite lookup_insert. case_decide; [eauto | exact Hk].
Qed.

Lemma releaseLabel_sets (igName : string) (stemcell : option Stemcell.t)
  (job : Job.t) (labels labels' : option (gmap string string))
  (release : Release.t) :
  Release.Name release = Job.Release job ->
  releaseLabel igName stemcell job labels release = Ok labels' ->
  is_Some (labelsOf labels' !! versionLabel job).
Proof.
  unfold releaseLabel, versionLabel. intros Hname Hrun.
  rewrite Hname, String.eqb_refl in Hrun.
  apply bind_Ok in Hrun as (v & _ & Hrun). injection Hrun as <-.
  change (labelsOf (Some ?x)) with x. rewrite lookup_insert_eq. eauto.
Qed.

(** X18.  [AddReleasesLabels] touches labels only, and of them only the
    version labels of the releases of the jobs of the group: when it
    returns nil the instance groups are as many as before, each keeps its
    name, stemcell, jobs and update block and every label under another
    key, and the rest of the manifest is as it was. *)
Theorem AddReleasesLabels_frame (m m' : Manifest.t) :
  AddReleasesLabels m = Ok m' ->
  Manifest.withInstanceGroups [] m' = Manifest.withInstanceGroups [] m /\
  Forall2 releasesLabelled (Manifest.InstanceGroups m)
    (Manifest.InstanceGroups m').
Proof.
  unfold AddReleasesLabels. intros Hrun.
  apply bind_Ok in Hrun as (igs & Higs & Hrun). injection Hrun as <-.
  split; [reflexivity|]. cbn.
  apply forM_Forall2 in Higs.
  eapply Forall2_impl; [exact Higs|]. clear Higs.
  intros ig ig' Hig. cbv beta zeta in Hig.
  apply bind_Ok in Hig as (labels & Hlabels & Hig). injection Hig as <-.
  cbn. do 4 (split; [reflexivity|]).
  intros k Hk.
  apply (fun Hstep =>
           foldM_invariant _
             (fun labels' => labelsOf labels' !! k
                             = labelsOf (InstanceGroup.Labels ig) !! k)
             _ Hstep _ _ eq_refl Hlabels).
  intros b job b' Hjob Hstep Hb. rewrite <- Hb.
  apply (fun Hrel =>
           foldM_invariant _
             (fun labels' => labelsOf labels' !! k = labelsOf b !! k)
             _ Hrel _ _ eq_refl Hstep).
  intros b0 release b1 _ Hrel Hb0. rewrite <- Hb0.
  exact (releaseLabel_other _ _ _ _ _ _ _ Hrel (Hk job Hjob)).
Qed.

Lemma AddReleasesLabels_frame_witness :
  exists m',
    AddReleasesLabels natsOnUbuntu = Ok m' /\
    Manifest.withInstanceGroups [] m' = Manifest.withInstanceGroups [] natsOnUbuntu /\
    Forall2 releasesLabelled (Manifest.InstanceGroups natsOnUbuntu)
      (Manifest.InstanceGroups m').
Proof.
  assert (Hrun : exists m', AddReleasesLabels natsOnUbuntu = Ok m')
    by (eexists; vm_compute; reflexivity).
  destruct Hrun as [m' Hrun]. exists m'. split; [exact Hrun|].
  exact (AddReleasesLabels_frame natsOnUbuntu m' Hrun).
Defined.

(** X19.  When [AddReleasesLabels] returns nil, every job whose release
    the manifest declares has its version label on its instance group. *)
Theorem AddReleasesLabels_labels (m m' : Manifest.t) (i : nat)
  (ig ig' : InstanceGroup.t) (job : Job.t) (release : Release.t) :
  AddReleasesLabels m = Ok m' ->
  Manifest.InstanceGroups m !! i = Some ig ->
  Manifest.InstanceGroups m' !! i = Some ig' ->
  job ∈ InstanceGroup.Jobs ig ->
  release ∈ Manifest.Releases m ->
  Release.Name release = Job.Release job ->
  exists labels v,
    InstanceGroup.Labels ig' = Some labels /\
    labels !! versionLabel job = Some v.
Proof.
  unfold AddReleasesLabels. intros Hrun Hi Hi' Hjob Hrelease Hname.
  apply bind_Ok in Hrun as (igs & Higs & Hrun). injection Hrun as <-.
  cbn in Hi'.
  destruct (forM_lookup _ _ _ Higs i ig Hi) as (ig'' & Hi'' & Hig).
  assert (ig'' = ig') as -> by congruence. cbv beta zeta in Hig.
  apply bind_Ok in Hig as (labels & Hlabels & Hig). injection Hig as <-.
  cbn.
  assert (Hset : is_Some (labelsOf labels !! versionLabel job)).
  { apply (fun Hset Hkeep =>
             foldM_establishes _
               (fun labels' => is_Some (labelsOf labels' !! versionLabel job))
               _ job Hjob Hset Hkeep _ _ Hlabels).
    - intros b b' Hstep.
      apply (fun Hset Hkeep =>
               foldM_establishes _
                 (fun labels' => is_Some (labelsOf labels' !! versionLabel job))
                 _ release Hrelease Hset Hkeep _ _ Hstep).
      + intros b0 b1. apply releaseLabel_sets, Hname.
      + intros b0 x b1. apply releaseLabel_keeps.
    - intros b x b' Hstep Hb.
      apply (fun Hkeep =>
               foldM_invariant _
                 (fun labels' => is_Some (labelsOf labels' !! versionLabel job))
                 _ Hkeep _ _ Hb Hstep).
      intros b0 r b1 _. apply releaseLabel_keeps. }
  destruct Hset as [v Hv]. unfold labelsOf in Hv.
  destruct labels as [labels|]; cbn in Hv; [eauto|].
  rewrite lookup_empty in Hv. discriminate.
Qed.

Lemma AddReleasesLabels_labels_witness :
  exists m' ig' labels,
    AddReleasesLabels natsOnUbuntu = Ok m' /\
    Manifest.InstanceGroups m' !! 0 = Some ig' /\
    InstanceGroup.Labels ig' = Some labels /\
    labels !! "app.kubernetes.io/version-image-nats" = Some "ubuntu-1-1.2.3".
Proof.
  assert (Hrun : AddReleasesLabels natsOnUbuntu
                 = Ok (match AddReleasesLabels natsOnUbuntu with
                       | Ok m' => m'
                       | _ => natsOnUbuntu
                       end)) by (vm_compute; reflexivity).
  set (m' := match AddReleasesLabels natsOnUbuntu with
             | Ok m' => m'
             | _ => natsOnUbuntu
             end) in *.
  assert (Hig : exists ig', Manifest.InstanceGroups m' !! 0 = Some ig')
    by (eexists; vm_compute; reflexivity).
  destruct Hig as [ig' Hig'].
  destruct (AddReleasesLabels_labels natsOnUbuntu m' 0 (group "nats" None) ig'
              natsJob
              {| Release.Name := "nats"; Release.Version := "1.2.3";
                 Release.URL := "docker.io/cfcontainerization/";
                 Release.SHA1 := ""; Release.Stemcell := None |}
              Hrun eq_refl Hig' (list_elem_of_here _ _) (list_elem_of_here _ _)
              eq_refl) as (labels & v & Hlabels & Hv).
  exists m', ig', labels. split; [exact Hrun|]. split; [exact Hig'|].
  split; [exact Hlabels|].
  vm_compute in Hig'. injection Hig' as <-.
  vm_compute in Hlabels. injection Hlabels as <-. vm_compute. reflexivity.
Defined.

(** X20.  Without releases there is nothing to label: [AddReleasesLabels]
    returns nil and leaves the manifest as it is, whether or not the
    stemcells of its instance groups resolve. *)
Theorem AddReleasesLabels_no_release (m : Manifest.t) :
  Manifest.Releases m = [] -> AddReleasesLabels m = Ok m.
Proof.
  intros Hnone. unfold AddReleasesLabels. rewrite Hnone.
  rewrite forM_id.
  - destruct m; reflexivity.
  - apply Forall_true. intros ig.
    assert (Hjobs : forall jobs labels,
      foldM (fun (labels : option (gmap string string)) (job : Job.t) =>
               foldM (releaseLabel (InstanceGroup.Name ig)
                        (stemcellOf (Manifest.Stemcells m)
                           (InstanceGroup.Stemcell ig)) job) labels [])
        labels jobs = Ok labels).
    { induction jobs as [|job jobs IH]; intros labels; [reflexivity|].
      rewrite foldM_cons. cbn [foldM mbind result_bind rbind]. apply IH. }
    rewrite Hjobs. destruct ig; reflexivity.
Qed.

Lemma AddReleasesLabels_no_release_witness :
  AddReleasesLabels loggingOnWeb = Ok loggingOnWeb.
Proof. apply AddReleasesLabels_no_release. reflexivity. Defined.

(** ** Missing providers *)

Lemma foldl_adds {A} (g : gmap string bool -> A -> gmap string bool)
  (R : A -> string -> Prop) :
  (forall M a n, is_Some (g M a !! n) <-> is_Some (M !! n) \/ R a n) ->
  forall l M n,
    is_Some (foldl g M l !! n) <->
    is_Some (M !! n) \/ exists a, a ∈ l /\ R a n.
Proof.
  intros Hg. induction l as [|a l IH]; intros M n; cbn [foldl].
  - split; [auto|]. intros [H|(a & Ha & _)]; [exact H | inversion Ha].
  - rewrite IH, Hg. split.
    + intros [[H|H]|(x & Hx & H)]; [auto | right | right].
      * exists a. split; [apply list_elem_of_here | exact H].
      * exists x. split; [apply list_elem_of_further, Hx | exact H].
    + intros [H|(x & [->|Hx]%elem_of_cons & H)]; [auto | auto | right; eauto].
Qed.

Lemma foldl_all_false {A} (g : gmap string bool -> A -> gmap string bool) :
  (forall M a, map_Forall (fun _ b => b = false) M ->
               map_Forall (fun _ b => b = false) (g M a)) ->
  forall l M,
    map_Forall (fun _ b => b = false) M ->
    map_Forall (fun _ b => b = false) (foldl g M l).
Proof.
  intros Hg. induction l as [|a l IH]; intros M HM; [exact HM|].
  cbn [foldl]. apply IH, Hg, HM.
Qed.

(** the step of the loop of [listProviderNames] *)
Lemma listProviderNames_step (providerKey : string) (M : gmap string bool)
  (kv : string * node) (n : string) :
  let M' :=
    match snd kv with
    | VMap p =>
        match alookup providerKey p with
        | Some nameVal =>
            let name := match nameVal with VString s => s | _ => "" end in
            if (String.length name =? 0)%nat then M else <[name := false]> M
        | None => M
        end
    | _ => M
    end in
  (is_Some (M' !! n) <->
   is_Some (M !! n) \/
   (n <> "" /\ exists p, snd kv = VMap p /\
                         alookup providerKey p = Some (VString n))) /\
  (map_Forall (fun _ b => b = false) M -> map_Forall (fun _ b => b = false) M').
Proof.
  cbv zeta.
  destruct (snd kv) as [ |x|s|l|key val|p];
    try (split; [|auto]; split; [auto|];
         intros [H|(_ & p & Hp & _)]; [exact H | discriminate]).
  destruct (alookup providerKey p) as [nameVal|] eqn:Hlook.
  2:{ split; [|auto]. split; [auto|].
      intros [H|(_ & p' & [= <-] & Hp)]; [exact H | congruence]. }
  assert (Hother : (forall s, nameVal <> VString s) \/ nameVal = VString ""
                   \/ exists s, s <> "" /\ nameVal = VString s).
  { destruct nameVal as [ |x|s|l|key val|q];
      try (left; intros s'; discriminate).
    destruct s as [|c s]; [right; left; reflexivity|].
    right. right. eexists. split; [|reflexivity]. discriminate. }
  destruct Hother as [Hother|[->|(s & Hs & ->)]].
  - assert (Hname : match nameVal with VString s => s | _ => "" end = "")
      by (destruct nameVal; try reflexivity; exfalso; eapply Hother; reflexivity).
    rewrite Hname. cbn. split; [|auto]. split; [auto|].
    intros [H|(_ & p' & [= <-] & Hp)]; [exact H|].
    rewrite Hlook in Hp. injection Hp as ->. exfalso. eapply Hother. reflexivity.
  - cbn. split; [|auto]. split; [auto|].
    intros [H|(Hn & p' & [= <-] & Hp)]; [exact H|].
    rewrite Hlook in Hp. injection Hp as <-. contradiction.
  - destruct s as [|c s]; [contradiction|]. cbn [String.length Nat.eqb].
    split.
    + rewrite lookup_insert. case_decide as Heq.
      * subst n. split; [|eauto]. intros _. right.
        split; [discriminate|]. exists p. split; [reflexivity | exact Hlook].
      * split; [auto|]. intros [H|(_ & p' & [= <-] & Hp)]; [exact H|].
        rewrite Hlook in Hp. injection Hp as Hp. contradiction.
    + intros HM. apply map_Forall_insert_2; [reflexivity | exact HM].
Qed.

Lemma listProviderNames_names (providerKey : string)
  (providerProperties : anyMap) (M : gmap string bool) (n : string) :
  is_Some (listProviderNames M providerProperties providerKey !! n) <->
  is_Some (M !! n) \/ links providerKey providerProperties n.
Proof.
  unfold listProviderNames, links.
  rewrite (foldl_adds _
             (fun kv n => n <> "" /\ exists p, snd kv = VMap p /\
                            alookup providerKey p = Some (VString n))).
  - split; (intros [H|H]; [left; exact H | right]).
    + destruct H as ([k v] & Hin & Hn & p & Hv & Hp). cbn in Hv. subst v.
      split; [exact Hn|]. eauto.
    + destruct H as (Hn & k & p & Hin & Hp). exists (k, VMap p).
      split; [exact Hin|]. split; [exact Hn|]. eauto.
  - intros M0 kv n0. apply (listProviderNames_step providerKey M0 kv n0).
Qed.

Lemma listProviderNames_false (providerKey : string)
  (providerProperties : anyMap) (M : gmap string bool) :
  map_Forall (fun _ b => b = false) M ->
  map_Forall (fun _ b => b = false)
    (listProviderNames M providerProperties providerKey).
Proof.
  unfold listProviderNames. apply foldl_all_false.
  intros M0 kv. apply (listProviderNames_step providerKey M0 kv "").
Qed.

Lemma provideAsNames_names (m : Manifest.t) (n : string) :
  is_Some (provideAsNames m !! n) <-> provides m n.
Proof.
  unfold provideAsNames, provides.
  rewrite (foldl_adds _
             (fun ig n => exists job, job ∈ InstanceGroup.Jobs ig /\
                            links "as" (Job.Provides job) n)).
  - rewrite lookup_empty. split.
    + intros [[x Hx]|(ig & Hig & job & Hjob & H)]; [discriminate | eauto].
    + intros (ig & job & Hig & Hjob & H). right. eauto.
  - intros M ig n0.
    rewrite (foldl_adds _ (fun job n => links "as" (Job.Provides job) n));
      [reflexivity|].
    intros M0 job n1. apply listProviderNames_names.
Qed.

Lemma consumeFromNames_names (m : Manifest.t) (n : string) :
  is_Some (consumeFromNames m !! n) <-> consumes m n.
Proof.
  unfold consumeFromNames, consumes.
  rewrite (foldl_adds _
             (fun ig n => exists job, job ∈ InstanceGroup.Jobs ig /\
                            links "from" (Job.Consumes job) n)).
  - rewrite lookup_empty. split.
    + intros [[x Hx]|(ig & Hig & job & Hjob & H)]; [discriminate | eauto].
    + intros (ig & job & Hig & Hjob & H). right. eauto.
  - intros M ig n0.
    rewrite (foldl_adds _ (fun job n => links "from" (Job.Consumes job) n));
      [reflexivity|].
    intros M0 job n1. apply listProviderNames_names.
Qed.

Lemma consumeFromNames_false (m : Manifest.t) :
  map_Forall (fun _ b => b = false) (consumeFromNames m).
Proof.
  unfold consumeFromNames. apply foldl_all_false; [|apply map_Forall_empty].
  intros M ig HM. apply foldl_all_false; [|exact HM].
  intros M0 job. apply listProviderNames_false.
Qed.

Lemma delete_provided (P : gmap string bool) (ks : list string)
  (C : gmap string bool) (n : string) :
  foldl (fun consumed providerName =>
           match P !! providerName with
           | Some _ => delete providerName consumed
           | None => consumed
           end) C ks !! n
  = if decide (n ∈ ks /\ is_Some (P !! n)) then None else C !! n.
Proof.
  revert C. induction ks as [|k ks IH]; intros C; cbn [foldl].
  - rewrite decide_False; [reflexivity|]. intros [Hin _]. inversion Hin.
  - rewrite IH. destruct (decide (n ∈ ks /\ is_Some (P !! n))) as [[Hin Hp]|Hno].
    + rewrite decide_True; [reflexivity|].
      split; [apply list_elem_of_further, Hin | exact Hp].
    + destruct (decide (n = k)) as [->|Hne].
      * destruct (P !! k) as [b|] eqn:Hk.
        -- rewrite lookup_delete_eq, decide_True; [reflexivity|].
           split; [apply list_elem_of_here | eauto].
        -- rewrite decide_False; [reflexivity|].
           intros [_ [x Hx]]. congruence.
      * assert (Hsame : match P !! k with
                        | Some _ => delete k C
                        | None => C
                        end !! n = C !! n).
        { destruct (P !! k); [apply lookup_delete_ne; congruence | reflexivity]. }
        rewrite Hsame, decide_False; [reflexivity|].
        intros [[?|Hin]%elem_of_cons Hp]; [contradiction|]. apply Hno. auto.
Qed.

(** X21.  [ListMissingProviders] returns the names that some job consumes
    a link from and no job provides a link as, each with the value false:
    a name that is provided is never reported, and a name that is consumed
    and not provided always is. *)
Theorem ListMissingProviders_exactly (m : Manifest.t) (name : string) :
  (ListMissingProviders m !! name = Some false <->
   consumes m name /\ ~ provides m name) /\
  (forall b, ListMissingProviders m !! name = Some b -> b = false).
Proof.
  unfold ListMissingProviders. rewrite delete_provided.
  rewrite <- provideAsNames_names, <- consumeFromNames_names.
  pose proof (consumeFromNames_false m) as Hfalse.
  destruct (decide (name ∈ (map_to_list (consumeFromNames m)).*1
                    /\ is_Some (provideAsNames m !! name))) as [[Hin Hp]|Hno].
  - split; [|discriminate]. split; [discriminate|]. intros [_ Hnp]. contradiction.
  - split.
    + split.
      * intros Hc. split; [eauto|]. intros Hp. apply Hno. split; [|exact Hp].
        apply list_elem_of_fmap. exists (name, false).
        split; [reflexivity|]. apply elem_of_map_to_list, Hc.
      * intros [[b Hb] _]. rewrite Hb. f_equal. exact (Hfalse name b Hb).
    + intros b Hb. exact (Hfalse name b Hb).
Qed.

Lemma ListMissingProviders_exactly_witness :
  ListMissingProviders linkedGroups !! "nats-link" = Some false /\
  ListMissingProviders linkedGroups !! "db-link" = None.
Proof.
  split.
  - apply (proj1 (ListMissingProviders_exactly linkedGroups "nats-link")).
    split.
    + eexists _, _. split; [apply list_elem_of_here|].
      split; [apply list_elem_of_here|].
      split; [discriminate|]. eexists _, _.
      split; [apply list_elem_of_here | reflexivity].
    + intros (ig & job & Hig & Hjob & _ & k & p & Hin & Hp).
      cbn in Hig.
      apply elem_of_cons in Hig as [->|Hig];
        [|apply list_elem_of_singleton in Hig; subst ig];
        cbn in Hjob; apply list_elem_of_singleton in Hjob; subst job;
        cbn in Hin.
      * inversion Hin.
      * apply list_elem_of_singleton in Hin. injection Hin as -> ->.
        discriminate Hp.
  - destruct (ListMissingProviders linkedGroups !! "db-link") as [b|] eqn:Hb;
      [|reflexivity].
    pose proof (proj2 (ListMissingProviders_exactly linkedGroups "db-link") b Hb)
      as ->.
    apply (proj1 (ListMissingProviders_exactly linkedGroups "db-link")) in Hb
      as [_ Hnot].
    exfalso. apply Hnot.
    eexists _, _. split; [apply list_elem_of_further, list_elem_of_here|].
    split; [apply list_elem_of_here|].
    split; [discriminate|]. eexists _, _.
    split; [apply list_elem_of_here | reflexivity].
Defined.

(** ** Hashes and aliases *)





(** ** Ops files that cannot be fetched *)

Section Fetch.
Context {codec : Codec} {api : Api} {cluster : Cluster} {variables : Variables}.
Context {I : Type} {interpolator : Interpolator I}.

Lemma forM_all_Ok {A B} (f : A -> result B) (l : list A) (l' : list B) (a : A) :
  forM f l = Ok l' -> a ∈ l -> exists b, f a = Ok b.
Proof.
  intros Hrun Hin. apply list_elem_of_lookup in Hin as [i Hi].
  destruct (forM_lookup f l l' Hrun i a Hi) as (b & _ & Hb). eauto.
Qed.

(** X23.  No manifest is returned when an ops file cannot be fetched:
    when the data of one of the ops files of the deployment cannot be
    read, neither [Manifest] nor [ManifestDetailed] succeeds, whatever the
    other ops files and the interpolator are. *)
Theorem unfetched_ops_fail (bdpl : BOSHDeployment.t) (namespace : string)
  (op : ResourceReference.t) :
  op ∈ BOSHDeploymentSpec.Ops (BOSHDeployment.Spec bdpl) ->
  (forall data, fetch namespace op <> Ok data) ->
  forall m,
    Resolver.Manifest bdpl namespace <> Ok m /\
    Resolver.ManifestDetailed bdpl namespace <> Ok m.
Proof.
  intros Hop Hfail m. split; intros Hrun.
  - unfold Resolver.Manifest, Resolver.load in Hrun.
    apply bind_Ok in Hrun as (loaded & Hload & _).
    apply bind_Ok in Hload as (text & _ & Hload).
    apply bind_Ok in Hload as (i & Hi & _).
    destruct (addAllOps_foldM _ _ _ _ _ Hi) as (ds & Hds & _).
    destruct (forM_all_Ok _ _ _ op Hds Hop) as (data & Hdata).
    exact (Hfail data Hdata).
  - unfold Resolver.ManifestDetailed in Hrun.
    apply bind_Ok in Hrun as (text & _ & Hrun).
    apply bind_Ok in Hrun as (bytes & Hbytes & _).
    destruct (interpolateEach_foldM _ _ _ _ _ Hbytes) as (ds & Hds & _).
    destruct (forM_all_Ok _ _ _ op Hds Hop) as (data & Hdata).
    exact (Hfail data Hdata).
Qed.
End Fetch.

Lemma unfetched_ops_fail_witness :
  Resolver.Manifest (codec := uuidCodec) (api := upstreamApi)
    (cluster := twoOpsCluster) (variables := noVariables)
    (interpolator := inOrder) missingOps "default"
  <> Ok (emptyManifest "from-a") /\
  Resolver.ManifestDetailed (codec := uuidCodec) (api := upstreamApi)
    (cluster := twoOpsCluster) (variables := noVariables)
    (interpolator := inOrder) missingOps "default"
  <> Ok (emptyManifest "from-a").
Proof.
  apply (unfetched_ops_fail (codec := uuidCodec) (api := upstreamApi)
           (cluster := twoOpsCluster) (variables := noVariables)
           (interpolator := inOrder) missingOps "default"
           {| ResourceReference.Name := "ops-missing";
              ResourceReference.Type_ := ConfigMapReference |}).
  - apply list_elem_of_further, list_elem_of_here.
  - intros data. vm_compute. discriminate.
Defined.
